(** * DensePose [apply_net_cust.py]: the [show] action's raster pipeline

    A shallow embedding of [ShowAction.execute_on_outputs],
    [ShowAction.generate_bitmaps], [ShowAction.find_body_part],
    [ShowAction.double_image] and [ShowAction.generate_vector] of
    [projects/DensePose/apply_net_cust.py].

    numpy arrays are mutable objects: they live in a heap of array objects
    addressed by locations, and the Python statements become programs of a
    state-and-exception monad over that heap and over a log of what has been
    written to disk.  OpenCV is a library outside the repository: the
    functions the script calls are the fields of the class [OpenCV]. *)

From stdpp Require Import base numbers list strings gmap.

Local Open Scope Z_scope.

(** ** Arrays *)

(** A pixel of a 3-channel [uint8] image, in OpenCV's B, G, R order. *)
Definition pixel : Type := Z * Z * Z.

Definition white : pixel := (255, 255, 255).
Definition black : pixel := (0, 0, 0).

Definition pixel_eqb (p q : pixel) : bool :=
  match p, q with
  | (b1, g1, r1), (b2, g2, r2) => (b1 =? b2) && (g1 =? g2) && (r1 =? r2)
  end.

(** A 2-D [uint8] array is a list of rows; a colour image (shape (h, w, 3))
    is a list of rows of pixels. *)
Inductive ndarray : Type :=
  | Gray (a : list (list Z))
  | Bgr (a : list (list pixel)).

(** [a.shape[0]] and [a.shape[1]].  An array with no row has no column in
    this representation. *)
Definition nrows {A} (a : list (list A)) : nat := length a.
Definition ncols {A} (a : list (list A)) : nat :=
  match a with
  | [] => 0%nat
  | r :: _ => length r
  end.

(** [a] is a rectangular array of shape (h, w). *)
Definition has_shape {A} (a : list (list A)) (h w : nat) : Prop :=
  length a = h ∧ Forall (λ r, length r = w) a.

(** [a[i][j]], with a default outside the array. *)
Definition at2 {A} (d : A) (a : list (list A)) (i j : nat) : A :=
  nth j (nth i a []) d.

(** [np.full((h, w), v)] *)
Definition np_full {A} (h w : nat) (v : A) : list (list A) :=
  replicate h (replicate w v).

(** [I.astype(np.uint8)] on one element of an integer array: numpy keeps the
    low eight bits. *)
Definition astype_uint8 (v : Z) : Z := v mod 256.

(** [a[mask(a)] = v]: a boolean-mask assignment of a scalar. *)
Definition assign_where {A} (mask : A → bool) (v : A) (a : list (list A))
  : list (list A) :=
  map (map (λ x, if mask x then v else x)) a.

(** ** The world: array objects and the disk *)

Definition loc := nat.

Inductive event : Type :=
  | Mkdir (path : string)
  | NpSave (path : string) (a : ndarray)
  | ImWrite (path : string) (a : ndarray)
  | Popen (cmd : string).

Inductive exn : Type :=
  | ValueError   (* numpy: could not broadcast input array *)
  | TypeError.   (* a name bound to an object of the wrong kind *)

Record world : Type := World {
  heap : gmap loc ndarray;
  dirs : list string;      (* directories that exist *)
  disk : list event        (* what has been written or launched, oldest first *)
}.

Definition set_heap (f : gmap loc ndarray → gmap loc ndarray) (σ : world) : world :=
  World (f (heap σ)) (dirs σ) (disk σ).

Definition M (A : Type) : Type := world → (exn + A) * world.

#[global] Instance M_ret : MRet M := λ A x σ, (inr x, σ).
#[global] Instance M_bind : MBind M := λ A B k m σ,
  match m σ with
  | (inl e, σ') => (inl e, σ')
  | (inr x, σ') => k x σ'
  end.

Definition raise {A} (e : exn) : M A := λ σ, (inl e, σ).

Definition alloc (a : ndarray) : M loc := λ σ,
  let l := fresh (dom (heap σ)) in (inr l, set_heap (insert l a) σ).

Definition load_gray (l : loc) : M (list (list Z)) := λ σ,
  match heap σ !! l with
  | Some (Gray a) => (inr a, σ)
  | _ => (inl TypeError, σ)
  end.

Definition load_bgr (l : loc) : M (list (list pixel)) := λ σ,
  match heap σ !! l with
  | Some (Bgr a) => (inr a, σ)
  | _ => (inl TypeError, σ)
  end.

Definition load (l : loc) : M ndarray := λ σ,
  match heap σ !! l with
  | Some a => (inr a, σ)
  | None => (inl TypeError, σ)
  end.

Definition store (l : loc) (a : ndarray) : M unit := λ σ,
  (inr (), set_heap (insert l a) σ).

Definition emit (e : event) : M unit := λ σ,
  (inr (), World (heap σ) (dirs σ) (disk σ ++ [e])).

(** [for x in xs: body(x)] *)
Fixpoint for_each {A} (xs : list A) (body : A → M unit) : M unit :=
  match xs with
  | [] => mret ()
  | x :: xs' => body x;; for_each xs' body
  end.

(** [np.copy(a)], [a.copy()] *)
Definition np_copy (l : loc) : M loc := a ← load l; alloc a.

(** [l[mask(l)] = v] on a 2-D [uint8] array object, in place. *)
Definition setitem_where (l : loc) (mask : Z → bool) (v : Z) : M unit :=
  a ← load_gray l; store l (Gray (assign_where mask v a)).

(** ** LabelRemapper *)

(** Lines 379-388: ten masked assignments on the array [I], in place. *)
Definition remap_labels (I : loc) : M unit :=
  setitem_where I (λ v, v =? 2) 1;;
  setitem_where I (λ v, v =? 17) 15;;
  setitem_where I (λ v, v =? 18) 16;;
  setitem_where I (λ v, v =? 7) 9;;
  setitem_where I (λ v, v =? 8) 10;;
  setitem_where I (λ v, v =? 11) 13;;
  setitem_where I (λ v, v =? 12) 14;;
  setitem_where I (λ v, v =? 19) 21;;
  setitem_where I (λ v, v =? 20) 22;;
  setitem_where I (λ v, v =? 24) 23.

(** The same ten assignments as data, in the order of the source. *)
Definition remap_assignments : list (Z * Z) :=
  [(2, 1); (17, 15); (18, 16); (7, 9); (8, 10);
   (11, 13); (12, 14); (19, 21); (20, 22); (24, 23)].

(** What a pixel holding [v] holds after the assignments [l], in order. *)
Definition run_assignments (l : list (Z * Z)) (v : Z) : Z :=
  fold_left (λ x st, if x =? st.1 then st.2 else x) l v.

(** The table as the specification words it: a single lookup, every label
    that is not listed maps to itself. *)
Definition SymmetryTable (r : Z) : Z :=
  if r =? 2 then 1 else
  if r =? 17 then 15 else
  if r =? 18 then 16 else
  if r =? 7 then 9 else
  if r =? 8 then 10 else
  if r =? 11 then 13 else
  if r =? 12 then 14 else
  if r =? 19 then 21 else
  if r =? 20 then 22 else
  if r =? 24 then 23 else r.

(** Lines 376-388: the labels of the model, cast to [uint8], then remapped. *)
Definition label_remapper (labels : list (list Z)) : M loc :=
  I ← alloc (Gray (map (map astype_uint8) labels));
  remap_labels I;;
  mret I.

(** ** OpenCV

    The functions of [cv2] that the script calls.  Their pixels are OpenCV's
    business; the fields below fix what the script relies on: the shapes of
    the results, and that black is grey level 0. *)

Definition contour : Type := list (Z * Z).

Class OpenCV : Type := {
  (** the 256-entry table of [cv2.COLORMAP_PARULA] *)
  colormap : Z → pixel;
  (** [cv2.COLOR_BGR2GRAY] on one pixel *)
  bgr2gray : pixel → Z;
  bgr2gray_black : bgr2gray black = 0;
  (** [cv2.findContours(arr, cv2.RETR_TREE, cv2.CHAIN_APPROX_SIMPLE)]: the
      contours, and what is left in [arr] (OpenCV before 3.2 scribbles on
      its input, later versions leave it alone) *)
  findContours : list (list Z) → list contour * list (list Z);
  (** [cv2.drawContours(img, contours, -1, color, thickness)], which draws
      into [img] *)
  drawContours : list (list pixel) → list contour → pixel → Z → list (list pixel);
  drawContours_shape im cs c t h w :
    has_shape im h w → has_shape (drawContours im cs c t) h w;
  (** [cv2.resize(img, (width, height), interpolation=cv2.INTER_AREA)] *)
  resize : list (list pixel) → Z → Z → list (list pixel);
  resize_shape im width height :
    0 < width → 0 < height →
    has_shape (resize im width height) (Z.to_nat height) (Z.to_nat width)
}.

(** ** Python numbers *)

(** A finite binary64 value [mant * 2 ^ expo]. *)
Record float64 : Type := Float64 { mant : Z; expo : Z }.

(** floor (log2 (a / b)) for positive [a] and [b]. *)
Definition ilog2_quot (a b : Z) : Z :=
  let L := Z.log2 a - Z.log2 b in
  if b * 2 ^ Z.max 0 L <=? a * 2 ^ Z.max 0 (- L) then L else L - 1.

(** [n / d] rounded to the nearest integer, ties to even. *)
Definition round_half_even (n d : Z) : Z :=
  let q := n / d in
  let r := n mod d in
  if 2 * r <? d then q
  else if d <? 2 * r then q + 1
  else if Z.even q then q else q + 1.

(** [a / b] on Python ints, for [0 ≤ a] and [0 < b]: the quotient correctly
    rounded to 53 significant bits (quotients here are far from the
    subnormal and the overflow range). *)
Definition int_true_divide (a b : Z) : float64 :=
  if a =? 0 then Float64 0 0
  else
    let e := ilog2_quot a b - 52 in
    Float64 (round_half_even (a * 2 ^ Z.max 0 (- e)) (b * 2 ^ Z.max 0 e)) e.

(** [int(f)]: truncation towards zero. *)
Definition int_of_float (f : float64) : Z :=
  if 0 <=? expo f then mant f * 2 ^ expo f
  else Z.quot (mant f) (2 ^ (- expo f)).

(** [np.int32] scalars wrap around. *)
Definition wrap32 (z : Z) : Z := (z + 2 ^ 31) mod 2 ^ 32 - 2 ^ 31.
Definition i32_add (a b : Z) : Z := wrap32 (a + b).

(** ** numpy slicing *)

(** [a[start:stop]] on an axis of length [n]: the first index and the
    length of the slice (negative bounds count from the end, everything is
    clipped to the axis). *)
Definition slice_indices (start stop : Z) (n : nat) : nat * nat :=
  let adj v := if v <? 0 then Z.max 0 (v + Z.of_nat n) else Z.min v (Z.of_nat n) in
  (Z.to_nat (adj start), Z.to_nat (Z.max 0 (adj stop - adj start))).

(** Rewrite the elements [off .. off+len-1] of a list. *)
Definition update_range {A} (off len : nat) (f : nat → A → A) (l : list A) : list A :=
  imap (λ k x, if bool_decide (off ≤ k < off + len)%nat then f (k - off)%nat x else x) l.

(** An axis of length [vn] broadcasts to one of length [tn]. *)
Definition broadcastable (vn tn : nat) : bool :=
  bool_decide (vn = tn) || bool_decide (vn = 1%nat).

(** The region of [th] rows from [r0] and [tw] columns from [c0] of [canvas]
    overwritten with [v], an axis of length one of [v] being repeated. *)
Definition paste (r0 th c0 tw : nat) (v canvas : list (list pixel))
  : list (list pixel) :=
  update_range r0 th (λ i row,
    update_range c0 tw (λ j _,
      at2 white v (if bool_decide (nrows v = 1%nat) then 0%nat else i)
                  (if bool_decide (ncols v = 1%nat) then 0%nat else j)) row) canvas.

(** [canvas[y0:y1, x0:x1] = value] for colour images. *)
Definition setitem_slice2 (canvas : loc) (y0 y1 x0 x1 : Z) (value : loc) : M unit :=
  c ← load_bgr canvas;
  v ← load_bgr value;
  let '(r0, th) := slice_indices y0 y1 (nrows c) in
  let '(c0, tw) := slice_indices x0 x1 (ncols c) in
  if broadcastable (nrows v) th && broadcastable (ncols v) tw
  then store canvas (Bgr (paste r0 th c0 tw v c))
  else raise ValueError.

(** ** Files *)

Definition np_save (path : string) (l : loc) : M unit :=
  a ← load l; emit (NpSave path a).

Definition cv2_imwrite (path : string) (l : loc) : M unit :=
  a ← load l; emit (ImWrite path a).

(** [if not os.path.exists(p): os.mkdir(p)] *)
Definition ensure_dir (p : string) : M unit := λ σ,
  if bool_decide (p ∈ dirs σ) then (inr (), σ)
  else (inr (), World (heap σ) (p :: dirs σ) (disk σ ++ [Mkdir p])).

Section Pipeline.
Context `{cv : OpenCV}.

(** [cv2.applyColorMap] of a one-channel image, and of a three-channel one
    (which OpenCV first converts to grey). *)
Definition applyColorMap_gray (a : list (list Z)) : list (list pixel) :=
  map (map colormap) a.
Definition applyColorMap_bgr (a : list (list pixel)) : list (list pixel) :=
  map (map (λ p, colormap (bgr2gray p))) a.

(** [cv2.bitwise_not] *)
Definition bitwise_not (a : list (list pixel)) : list (list pixel) :=
  map (map (λ p : pixel, (255 - p.1.1, 255 - p.1.2, 255 - p.2))) a.

(** Lines 275-277. *)
Definition generate_vector (file_in file_out : string) : M unit :=
  let cmd := "autotrace -filter-iterations=4 -input-format bmp -output-format svg -output-file "
             +:+ file_out +:+ " " +:+ file_in in
  emit (Popen cmd).

(** Lines 280-288. *)
Definition double_image (image : loc) : M loc :=
  im ← load_bgr image;
  let scale_percent := 200 in
  let width := int_of_float (int_true_divide (Z.of_nat (ncols im) * scale_percent) 100) in
  let height := int_of_float (int_true_divide (Z.of_nat (nrows im) * scale_percent) 100) in
  alloc (Bgr (resize im width height)).

(** Lines 291-297. *)
Definition find_body_part (body_parts : loc) (body_part_index : Z) : M (list contour) :=
  arr ← np_copy body_parts;
  setitem_where arr (λ v, negb (v =? body_part_index)) 0;;
  setitem_where arr (λ v, v =? body_part_index) 255;;
  a ← load_gray arr;
  let '(contours, a') := findContours a in
  store arr (Gray a');;
  mret contours.

(** [cv2.drawContours(img, contours, -1, color, thickness)] on an array
    object. *)
Definition cv2_drawContours (img : loc) (contours : list contour) (color : pixel)
    (thickness : Z) : M unit :=
  im ← load_bgr img; store img (Bgr (drawContours im contours color thickness)).

(** [np.zeros(shape=image.shape, dtype=np.uint8)] *)
Definition np_zeros_like (image : loc) : M loc :=
  im ← load_bgr image; alloc (Bgr (np_full (nrows im) (ncols im) black)).

(** [a = cv2.bitwise_not(a)], [a = cls.double_image(a)],
    [cv2.imwrite("/content/" + prefix + name + ".bmp", a)] and
    [cls.generate_vector] of the same file: the four statements that close
    each of the three mask artifacts. *)
Definition write_mask (prefix name : string) (a : loc) : M unit :=
  im ← load_bgr a;
  a ← alloc (Bgr (bitwise_not im));
  a ← double_image a;
  cv2_imwrite ("/content/" +:+ prefix +:+ name +:+ ".bmp") a;;
  generate_vector ("/content/" +:+ prefix +:+ name +:+ ".bmp")
                  ("/content/" +:+ prefix +:+ name +:+ ".svg").

(** Lines 300-344. *)
Definition generate_bitmaps (prefix : string) (image output_orig outline : loc) : M unit :=
  blank ← np_zeros_like image;
  blank_outline ← np_zeros_like image;
  solid_outline ← np_zeros_like image;
  for_each (seqZ 1 23) (λ i,
    contours ← find_body_part output_orig i;
    if bool_decide (0 < length contours)%nat then
      cv2_drawContours image contours (0, 0, 0) 2;;
      cv2_drawContours blank contours (255, 255, 255) 2
    else mret ());;
  write_mask prefix "blank" blank;;
  image ← double_image image;
  cv2_imwrite ("/content/" +:+ prefix +:+ "image.bmp") image;;
  generate_vector ("/content/" +:+ prefix +:+ "image.bmp")
                  ("/content/" +:+ prefix +:+ "image.svg");;
  im ← load_bgr image;
  gray ← alloc (Gray (map (map bgr2gray) im));
  cv2_imwrite ("/content/" +:+ prefix +:+ "image_bw.bmp") gray;;
  generate_vector ("/content/" +:+ prefix +:+ "image_bw.bmp")
                  ("/content/" +:+ prefix +:+ "image_bw.svg");;
  contours_o ← find_body_part outline 1;
  (if bool_decide (0 < length contours_o)%nat then
     cv2_drawContours blank_outline contours_o (255, 255, 255) 2;;
     cv2_drawContours solid_outline contours_o (255, 255, 255) (-1)
   else mret ());;
  write_mask prefix "blank_outline" blank_outline;;
  write_mask prefix "solid_outline" solid_outline.

(** Lines 418-419: [I.astype(np.float32) * 10.625], then [astype(np.uint8)].
    10.625 is 85/8 and the product of a [uint8] by it is exact in binary32;
    the cast truncates.  For labels up to 24 the product is at most 255;
    above, it does not fit [uint8]: numpy leaves such a cast to the C
    compiler, and on x86-64 the low eight bits are kept. *)
Definition scale_intensity (v : Z) : Z := astype_uint8 (v * 85 / 8).

(** Lines 418-428: the Colorizer and the background correction. *)
Definition colorize (I : loc) : M loc :=
  a ← load_gray I;
  I ← alloc (Gray (map (map scale_intensity) a));
  a ← load_gray I;
  I ← alloc (Bgr (applyColorMap_gray a));
  my_array ← alloc (Bgr (applyColorMap_bgr [[(0, 0, 0)]]));
  m ← load_bgr my_array;
  let bg := at2 black m 0 0 in
  c ← load_bgr I;
  store I (Bgr (assign_where (λ p, pixel_eqb p bg) (255, 255, 255) c));;
  mret I.

(** Lines 430-433: the Canvas Compositor.  [image] is the black image of the
    shape of the source image (line 370), [bbox] is [bbox[0].astype(np.int32)]
    and [I] the colorized part image. *)
Definition composite (image : loc) (bbox : Z * Z * Z * Z) (I : loc) : M loc :=
  let '(x, y, w, h) := bbox in
  im ← load_bgr image;
  image_target_bgr ← alloc (Bgr (np_full (nrows im) (ncols im) (255, 255, 255)));
  setitem_slice2 image_target_bgr y (i32_add y h) x (i32_add x w) I;;
  mret image_target_bgr.

(** Lines 347-454.  [file_stem] is the base name of [entry["file_name"]]
    without its extension, [entry_image] is [entry["image"]], [labels] is
    [data[0][0][0].labels] and [bbox] is [data[0][1][0]] as [int32];
    the result is the new [context["entry_idx"]].  Printing and logging are
    left out. *)
Definition execute_on_outputs (entry_idx : Z) (file_stem : string)
    (entry_image : list (list pixel)) (labels : list (list Z))
    (bbox : Z * Z * Z * Z) : M Z :=
  let prefix := "/results/" +:+ file_stem +:+ "_" in
  ensure_dir "/content/results";;
  image ← alloc (Gray (map (map bgr2gray) entry_image));
  g ← load_gray image;
  image ← alloc (Gray (np_full (nrows g) (ncols g) 0));
  g ← load_gray image;
  image ← alloc (Bgr (map (map (λ v, (v, v, v))) g));
  I ← label_remapper labels;
  output_orig ← np_copy I;
  np_save "/content/output_orig.npy" output_orig;;
  outline ← np_copy I;
  setitem_where outline (λ v, 0 <? v) 1;;
  np_save "/content/output_outline.npy" outline;;
  I ← colorize I;
  image_target_bgr ← composite image bbox I;
  np_save ("/content/" +:+ prefix +:+ "output.npy") I;;
  cv2_imwrite "/content/results/mytest.jpg" image_target_bgr;;
  generate_bitmaps prefix I output_orig outline;;
  mret (entry_idx + 1).

End Pipeline.

(** ** A small OpenCV

    A stand-in with the shapes of the real functions, on which the pipeline
    runs on concrete images: a colour ramp that gives each of the 256
    intensities a colour of its own, OpenCV's integer weights for grey, one
    contour of one point for every pixel that is set, contour points painted
    without thickness, nearest-neighbour resizing. *)

Definition ramp_colormap (i : Z) : pixel := (255 - i, i, 128).

Definition weighted_gray (p : pixel) : Z :=
  (1868 * p.1.1 + 9617 * p.1.2 + 4899 * p.2 + 8192) / 16384.

Definition point_contours (a : list (list Z)) : list contour * list (list Z) :=
  (concat (imap (λ i row,
     concat (imap (λ j v, if v =? 0 then [] else [[(Z.of_nat j, Z.of_nat i)]]) row)) a),
   a).

Definition paint_points (im : list (list pixel)) (cs : list contour) (c : pixel)
    (thickness : Z) : list (list pixel) :=
  imap (λ i row,
    imap (λ j p, if bool_decide ((Z.of_nat j, Z.of_nat i) ∈ concat cs) then c else p) row) im.

Definition nearest_resize (im : list (list pixel)) (width height : Z)
  : list (list pixel) :=
  map (λ i,
    map (λ j, at2 black im (i * nrows im / Z.to_nat height)%nat
                           (j * ncols im / Z.to_nat width)%nat)
        (seq 0 (Z.to_nat width)))
    (seq 0 (Z.to_nat height)).

#[program] Definition small_cv : OpenCV := {|
  colormap := ramp_colormap;
  bgr2gray := weighted_gray;
  findContours := point_contours;
  drawContours := paint_points;
  resize := nearest_resize
|}.
Next Obligation. reflexivity. Qed.
Next Obligation.
  intros im cs c t h w [Hh Hw]. split.
  - unfold paint_points. by rewrite length_imap.
  - unfold paint_points. apply Forall_forall. intros r Hr.
    apply list_elem_of_lookup in Hr as [i Hi].
    rewrite list_lookup_imap in Hi.
    destruct (im !! i) as [r0|] eqn:Hr0; [|done]. simpl in Hi.
    injection Hi as <-. rewrite length_imap.
    eapply Forall_forall in Hw; [exact Hw|]. by eapply list_elem_of_lookup_2.
Qed.
Next Obligation.
  intros im width height _ _. split.
  - unfold nearest_resize. by rewrite length_map, length_seq.
  - unfold nearest_resize. apply Forall_map, Forall_forall. intros i _. simpl.
    by rewrite length_map, length_seq.
Qed.

(** ** What the programs compute

    Pure descriptions of what the programs above return and write, and the
    predicates in which the theorems are stated. *)

(** [a[i][j]] when it exists. *)
Definition px {A} (a : list (list A)) (i j : nat) : option A :=
  row ← a !! i; row !! j.

(** [wp m σ Φ]: what [m] yields from [σ], a value or an exception, and the
    world it leaves satisfy [Φ]. *)
Definition wp {A} (m : M A) (σ : world) (Φ : exn + A → world → Prop) : Prop :=
  Φ (m σ).1 (m σ).2.

#[global] Arguments wp : simpl never.

(** [σ'] has every array object of [σ], unchanged, and the same disk. *)
Definition extends (σ σ' : world) : Prop :=
  heap σ ⊆ heap σ' ∧ dirs σ' = dirs σ ∧ disk σ' = disk σ.

(** The merged label array of the labels of the model. *)
Definition merged_labels (labels : list (list Z)) : list (list Z) :=
  map (map (λ v, SymmetryTable (v mod 256))) labels.

(** The shape of an array object of either kind. *)
Definition ndarray_has_shape (arr : ndarray) (h w : nat) : Prop :=
  match arr with
  | Gray a => has_shape a h w
  | Bgr a => has_shape a h w
  end.

(** An artifact on disk: the bitmap, then the tracer launched on it. *)
Definition artifact_events (prefix name : string) (arr : ndarray) : list event :=
  [ImWrite ("/content/" +:+ prefix +:+ name +:+ ".bmp") arr;
   Popen ("autotrace -filter-iterations=4 -input-format bmp -output-format svg -output-file "
          +:+ ("/content/" +:+ prefix +:+ name +:+ ".svg") +:+ " "
          +:+ ("/content/" +:+ prefix +:+ name +:+ ".bmp"))].

Section Artifacts.
Context `{cv : OpenCV}.

(** What lines 418-428 leave in the colorized image, pixel by pixel. *)
Definition colorized_pixel (v : Z) : pixel :=
  let c := colormap (scale_intensity v) in
  if pixel_eqb c (colormap 0) then white else c.

(** What [double_image] gets back from [cv2.resize]. *)
Definition doubled (im : list (list pixel)) : list (list pixel) :=
  resize im (int_of_float (int_true_divide (Z.of_nat (ncols im) * 200) 100))
            (int_of_float (int_true_divide (Z.of_nat (nrows im) * 200) 100)).

(** The binary mask that [find_body_part] hands to [cv2.findContours], and
    the contours it gets back. *)
Definition threshold (a : list (list Z)) (i : Z) : list (list Z) :=
  assign_where (λ v, v =? i) 255 (assign_where (λ v, negb (v =? i)) 0 a).

Definition part_contours (a : list (list Z)) (i : Z) : list contour :=
  (findContours (threshold a i)).1.

(** The colorized image and the blank canvas after the contours of the
    parts [parts] of the label array [a] have been drawn, in order. *)
Definition draw_part (a : list (list Z))
    (st : list (list pixel) * list (list pixel)) (i : Z)
  : list (list pixel) * list (list pixel) :=
  let cs := part_contours a i in
  if bool_decide (0 < length cs)%nat
  then (drawContours st.1 cs (0, 0, 0) 2, drawContours st.2 cs (255, 255, 255) 2)
  else st.

Definition draw_parts (a : list (list Z)) (parts : list Z)
    (st : list (list pixel) * list (list pixel))
  : list (list pixel) * list (list pixel) :=
  fold_left (draw_part a) parts st.

(** A canvas after the contours of the union mask [o] have been drawn. *)
Definition silhouette (o : list (list Z)) (thickness : Z)
    (canvas : list (list pixel)) : list (list pixel) :=
  let cs := part_contours o 1 in
  if bool_decide (0 < length cs)%nat
  then drawContours canvas cs (255, 255, 255) thickness
  else canvas.

(** The five artifacts of [generate_bitmaps], from the colorized image
    [im], the merged label array [a] and the union mask [o]. *)
Definition bitmap_artifacts (im : list (list pixel)) (a o : list (list Z))
  : list (string * ndarray) :=
  let zeros := np_full (nrows im) (ncols im) black in
  let parts := draw_parts a (seqZ 1 23) (im, zeros) in
  [("blank", Bgr (doubled (bitwise_not parts.2)));
   ("image", Bgr (doubled parts.1));
   ("image_bw", Gray (map (map bgr2gray) (doubled parts.1)));
   ("blank_outline", Bgr (doubled (bitwise_not (silhouette o 2 zeros))));
   ("solid_outline", Bgr (doubled (bitwise_not (silhouette o (-1) zeros))))].

Definition bitmap_events (prefix : string) (im : list (list pixel))
    (a o : list (list Z)) : list event :=
  concat (map (λ na, artifact_events prefix na.1 na.2) (bitmap_artifacts im a o)).

End Artifacts.

(** ** What the pipeline of one image writes *)

Section Outcome.
Context `{cv : OpenCV}.

(** The union mask of line 394 and the colorized image of lines 418-428,
    from the labels of the model. *)
Definition union_mask (labels : list (list Z)) : list (list Z) :=
  assign_where (λ v, 0 <? v) 1 (merged_labels labels).

Definition colorized_labels (labels : list (list Z)) : list (list pixel) :=
  map (map colorized_pixel) (merged_labels labels).

(** The two dumps of lines 391 and 396. *)
Definition label_dumps (labels : list (list Z)) : list event :=
  [NpSave "/content/output_orig.npy" (Gray (merged_labels labels));
   NpSave "/content/output_outline.npy" (Gray (union_mask labels))].

(** The rows and the columns that the slice [y:y+h, x:x+w] selects in a
    canvas of the sides of the source image: first index and length. *)
Definition box_rows (entry_image : list (list pixel)) (bbox : Z * Z * Z * Z) : nat * nat :=
  let '(x, y, w, h) := bbox in slice_indices y (i32_add y h) (nrows entry_image).

Definition box_cols (entry_image : list (list pixel)) (bbox : Z * Z * Z * Z) : nat * nat :=
  let '(x, y, w, h) := bbox in slice_indices x (i32_add x w) (ncols entry_image).

(** numpy accepts the assignment of line 433. *)
Definition box_accepted (entry_image : list (list pixel)) (labels : list (list Z))
    (bbox : Z * Z * Z * Z) : bool :=
  broadcastable (nrows labels) (box_rows entry_image bbox).2
  && broadcastable (ncols labels) (box_cols entry_image bbox).2.

(** The canvas written to [mytest.jpg]. *)
Definition composited (entry_image : list (list pixel)) (labels : list (list Z))
    (bbox : Z * Z * Z * Z) : list (list pixel) :=
  paste (box_rows entry_image bbox).1 (box_rows entry_image bbox).2
        (box_cols entry_image bbox).1 (box_cols entry_image bbox).2
        (colorized_labels labels)
        (np_full (nrows entry_image) (ncols entry_image) white).

(** Everything [execute_on_outputs] writes after the label dumps when the
    assignment is accepted. *)
Definition image_events (file_stem : string) (entry_image : list (list pixel))
    (labels : list (list Z)) (bbox : Z * Z * Z * Z) : list event :=
  [NpSave ("/content/" +:+ ("/results/" +:+ file_stem +:+ "_") +:+ "output.npy")
     (Bgr (colorized_labels labels));
   ImWrite "/content/results/mytest.jpg" (Bgr (composited entry_image labels bbox))]
  ++ bitmap_events ("/results/" +:+ file_stem +:+ "_") (colorized_labels labels)
       (merged_labels labels) (union_mask labels).

End Outcome.

(** ** Python strings and paths *)

Definition slash : Ascii.ascii := Ascii.ascii_of_nat 47.   (* "/" *)
Definition dot : Ascii.ascii := Ascii.ascii_of_nat 46.     (* "." *)
Definition comma : Ascii.ascii := Ascii.ascii_of_nat 44.   (* "," *)

(** [s] cut at the last [c]: what is before it and what is after it
    ([s[:s.rfind(c)]] and [s[s.rfind(c)+1:]]), when [c] occurs in [s]. *)
Fixpoint rsplit_at (c : Ascii.ascii) (s : string) : option (string * string) :=
  match s with
  | EmptyString => None
  | String a s' =>
      match rsplit_at c s' with
      | Some (h, t) => Some (String a h, t)
      | None => if bool_decide (a = c) then Some (EmptyString, s') else None
      end
  end.

(** [s] is made of [c] only. *)
Fixpoint all_char (c : Ascii.ascii) (s : string) : bool :=
  match s with
  | EmptyString => true
  | String a s' => bool_decide (a = c) && all_char c s'
  end.

(** [s.rstrip(c)] *)
Fixpoint rstrip (c : Ascii.ascii) (s : string) : string :=
  match s with
  | EmptyString => EmptyString
  | String a s' =>
      match rstrip c s' with
      | EmptyString => if bool_decide (a = c) then EmptyString else String a EmptyString
      | r => String a r
      end
  end.

(** [os.path.split(p)] (posixpath): the head is [p] up to its last slash,
    without its trailing slashes unless it is made of slashes only; the tail
    is what follows the last slash. *)
Definition os_path_split (p : string) : string * string :=
  match rsplit_at slash p with
  | None => ("", p)
  | Some (h, t) =>
      let head := h +:+ "/" in
      (if all_char slash head then head else rstrip slash head, t)
  end.

(** [os.path.dirname(p)] *)
Definition os_path_dirname (p : string) : string := (os_path_split p).1.

(** [os.path.splitext(p)] (posixpath): the extension starts at the last dot
    of the last component of [p], unless only dots precede it there. *)
Definition os_path_splitext (p : string) : string * string :=
  let '(dir, name) := match rsplit_at slash p with
                      | None => ("", p)
                      | Some (h, t) => (h +:+ "/", t)
                      end in
  match rsplit_at dot name with
  | None => (p, "")
  | Some (root, ext) =>
      if all_char dot root then (p, "") else (dir +:+ root, String dot ext)
  end.

(** [s.split(sep)] with a one-character separator. *)
Fixpoint str_split (sep : Ascii.ascii) (s : string) : list string :=
  match s with
  | EmptyString => [EmptyString]
  | String a s' =>
      if bool_decide (a = sep) then EmptyString :: str_split sep s'
      else match str_split sep s' with
           | piece :: pieces => String a piece :: pieces
           | [] => [String a EmptyString]
           end
  end.

(** [sep.join(pieces)] *)
Fixpoint str_join (sep : string) (pieces : list string) : string :=
  match pieces with
  | [] => ""
  | [piece] => piece
  | piece :: pieces' => piece +:+ sep +:+ str_join sep pieces'
  end.

(** Lines 358-360: the prefix of the artifacts of an image file is made of
    the base name of the file without its extension. *)
Definition file_stem_of (image_fpath : string) : string :=
  (os_path_splitext (os_path_split image_fpath).2).1.

(** ** Actions

    [InferenceAction.execute] runs the class methods of the action it is
    called on.  Programs of an action run over a state [S] and may raise an
    exception of [E]. *)

Definition prog (S E A : Type) : Type := S → (E + A) * S.

Definition pret {S E A} (x : A) : prog S E A := λ σ, (inr x, σ).
Definition pbind {S E A B} (m : prog S E A) (k : A → prog S E B) : prog S E B :=
  λ σ, match m σ with
       | (inl e, σ') => (inl e, σ')
       | (inr x, σ') => k x σ'
       end.
Definition praise {S E A} (e : E) : prog S E A := λ σ, (inl e, σ).

(** [for x in xs: ctx = body(ctx, x)], the context being updated in place. *)
Fixpoint fold_prog {S E A B} (body : A → B → prog S E A) (xs : list B) (a : A)
  : prog S E A :=
  match xs with
  | [] => pret a
  | x :: xs' => pbind (body a x) (fold_prog body xs')
  end.

(** The methods and the collaborators of an action: configuration and
    predictor ([setup_config], [DefaultPredictor]), the listing of the input
    files, [read_image] followed by the predictor, and the three methods
    that the sub-classes define. *)
Record InferenceAction (S E Cfg Ctx Img Out : Type) : Type := {
  act_setup_config : prog S E Cfg;
  act_get_input_file_list : prog S E (list string);
  act_predict : Cfg → string → prog S E (Img * Out);
  act_create_context : Cfg → prog S E Ctx;
  act_execute_on_outputs : Ctx → string → Img → Out → prog S E Ctx;
  act_postexecute : Ctx → prog S E unit
}.

#[global] Arguments act_setup_config {S E Cfg Ctx Img Out}.
#[global] Arguments act_get_input_file_list {S E Cfg Ctx Img Out}.
#[global] Arguments act_predict {S E Cfg Ctx Img Out}.
#[global] Arguments act_create_context {S E Cfg Ctx Img Out}.
#[global] Arguments act_execute_on_outputs {S E Cfg Ctx Img Out}.
#[global] Arguments act_postexecute {S E Cfg Ctx Img Out}.

(** Lines 105-109: the loop over the input files. *)
Definition process_files {S E Cfg Ctx Img Out} (cls : InferenceAction S E Cfg Ctx Img Out)
    (cfg : Cfg) (file_list : list string) (context : Ctx) : prog S E Ctx :=
  fold_prog (λ context file_name,
    pbind (act_predict cls cfg file_name) (λ io,
      act_execute_on_outputs cls context file_name io.1 io.2))
    file_list context.

(** Lines 93-110 (logging left out). *)
Definition execute {S E Cfg Ctx Img Out} (cls : InferenceAction S E Cfg Ctx Img Out)
  : prog S E unit :=
  pbind (act_setup_config cls) (λ cfg,
  pbind (act_get_input_file_list cls) (λ file_list,
  if bool_decide (length file_list = 0%nat) then pret ()
  else
    pbind (act_create_context cls cfg) (λ context,
    pbind (process_files cls cfg file_list context) (λ context,
    act_postexecute cls context)))).

(** The exceptions of the actions: those of the array programs, and
    Python's own. *)
Inductive py_exn : Type :=
  | ArrayError (e : exn)
  | KeyError (key : string)
  | UnboundLocalError (name : string).

(** An array program as a program of an action. *)
Definition lift_array {A} (m : M A) : prog world py_exn A := λ σ,
  match m σ with
  | (inl e, σ') => (inl (ArrayError e), σ')
  | (inr x, σ') => (inr x, σ')
  end.

(** ** The show action *)

Inductive visualizer : Type :=
  | DensePoseResultsContourVisualizer
  | DensePoseResultsFineSegmentationVisualizer
  | DensePoseResultsUVisualizer
  | DensePoseResultsVVisualizer
  | DensePoseResultsVisualizerWithTexture
  | DensePoseOutputsTextureVisualizer
  | DensePoseOutputsVertexVisualizer
  | ScoredBoundingBoxVisualizer.

(** Lines 207-216. *)
Definition VISUALIZERS : gmap string visualizer :=
  {[ "dp_contour" := DensePoseResultsContourVisualizer;
     "dp_segm" := DensePoseResultsFineSegmentationVisualizer;
     "dp_u" := DensePoseResultsUVisualizer;
     "dp_v" := DensePoseResultsVVisualizer;
     "dp_iuv_texture" := DensePoseResultsVisualizerWithTexture;
     "dp_cse_texture" := DensePoseOutputsTextureVisualizer;
     "dp_vertex" := DensePoseOutputsVertexVisualizer;
     "bbox" := ScoredBoundingBoxVisualizer ]}.

(** The context of the show action: the visualizers of the compound
    visualizer (an extractor is made for each, in the same order), the name
    of the output file and the index of the entry. *)
Record show_context : Type := ShowContext {
  ctx_visualizers : list visualizer;
  ctx_out_fname : string;
  ctx_entry_idx : Z
}.

(** The loop of lines 470-480: [VISUALIZERS[vis_spec]] raises [KeyError] on
    a name that is not a key.  The texture atlases, the constructors of the
    visualizers and [create_extractor], of other modules, are taken to
    return. *)
Fixpoint make_visualizers (vis_specs : list string) : py_exn + list visualizer :=
  match vis_specs with
  | [] => inr []
  | vis_spec :: rest =>
      match VISUALIZERS !! vis_spec with
      | None => inl (KeyError vis_spec)
      | Some vis =>
          match make_visualizers rest with
          | inl e => inl e
          | inr visualizers => inr (vis :: visualizers)
          end
      end
  end.

(** Lines 465-489: [ShowAction.create_context], from [args.visualizations]
    and [args.output]. *)
Definition show_create_context (visualizations output : string)
  : py_exn + show_context :=
  let vis_specs := str_split comma visualizations in
  match make_visualizers vis_specs with
  | inl e => inl e
  | inr visualizers => inr (ShowContext visualizers output 0)
  end.

Section ShowAction.
Context `{cv : OpenCV}.

(** The show action as an action.  [predict] stands for [read_image], the
    predictor and the extractor of the context: the image, the labels and
    the box of [int32]s of a file.  The configuration is the collaborators'
    business. *)
Definition ShowAction (visualizations output : string) (file_list : list string)
    (predict : string → list (list pixel) * (list (list Z) * (Z * Z * Z * Z)))
  : InferenceAction world py_exn unit show_context (list (list pixel))
      (list (list Z) * (Z * Z * Z * Z)) := {|
  act_setup_config := pret ();
  act_get_input_file_list := pret file_list;
  act_predict := λ _ file_name, pret (predict file_name);
  act_create_context := λ _ σ,
    match show_create_context visualizations output with
    | inl e => (inl e, σ)
    | inr context => (inr context, σ)
    end;
  act_execute_on_outputs := λ context file_name image outputs,
    pbind (lift_array (execute_on_outputs (ctx_entry_idx context)
                         (file_stem_of file_name) image outputs.1 outputs.2))
      (λ entry_idx, pret (ShowContext (ctx_visualizers context)
                            (ctx_out_fname context) entry_idx));
  act_postexecute := λ _, pret ()
|}.

End ShowAction.

(** The files that a log of the disk leaves behind: the last array written
    to each path. *)
Definition record_event (files : gmap string ndarray) (e : event)
  : gmap string ndarray :=
  match e with
  | NpSave path a | ImWrite path a => <[path := a]> files
  | _ => files
  end.

Definition files_of (log : list event) : gmap string ndarray :=
  fold_left record_event log ∅.

(** [c] occurs in [s]. *)
Fixpoint occurs (c : Ascii.ascii) (s : string) : bool :=
  match s with
  | EmptyString => false
  | String a s' => bool_decide (a = c) || occurs c s'
  end.

(** The event [e] writes an array to [path]. *)
Definition writes_to (path : string) (e : event) : Prop :=
  match e with
  | NpSave p _ | ImWrite p _ => p = path
  | _ => False
  end.

(** ** The dump action *)

(** A tensor, by its numbers. *)
Definition tensor : Type := list Z.

(** [outputs.pred_densepose], by its class. *)
Inductive densepose_output : Type :=
  | DensePoseChartPredictorOutput (data : tensor)
  | DensePoseEmbeddingPredictorOutput (data : tensor)
  | OtherPredictorOutput (data : tensor).

(** The fields of [Instances] that the dump action reads; [None] when
    [outputs.has(name)] is false. *)
Record instances : Type := Instances {
  scores : option tensor;
  pred_boxes : option tensor;
  pred_densepose : option densepose_output
}.

Inductive dump_value : Type :=
  | DStr (s : string)
  | DTensor (t : tensor)
  | DDensePose (extracted : tensor).

(** The context of the dump action, a dict with two keys. *)
Record dump_context : Type := DumpContext {
  dump_results : list (gmap string dump_value);
  dump_out_fname : string
}.

Inductive dump_event : Type :=
  | Makedirs (path : string)
  | TorchSave (path : string) (results : list (gmap string dump_value)).

(** The paths that exist, and what the action has done to the disk. *)
Record dump_fs : Type := DumpFs {
  fs_paths : list string;
  fs_log : list dump_event
}.

Section DumpAction.
(** [DensePoseResultExtractor()(outputs)[0]] and
    [DensePoseOutputsExtractor()(outputs)[0]] *)
Variable DensePoseResultExtractor : instances → tensor.
Variable DensePoseOutputsExtractor : instances → tensor.

(** Lines 166-182.  [extractor] is bound on two of the three branches
    only. *)
Definition dump_execute_on_outputs (context : dump_context) (image_fpath : string)
    (outputs : instances) : py_exn + dump_context :=
  let append result :=
    DumpContext (dump_results context ++ [result]) (dump_out_fname context) in
  let result : gmap string dump_value := {[ "file_name" := DStr image_fpath ]} in
  let result := match scores outputs with
                | Some s => <["scores" := DTensor s]> result
                | None => result
                end in
  match pred_boxes outputs with
  | Some boxes =>
      let result := <["pred_boxes_XYXY" := DTensor boxes]> result in
      match pred_densepose outputs with
      | Some (DensePoseChartPredictorOutput _) =>
          let extractor := DensePoseResultExtractor in
          inr (append (<["pred_densepose" := DDensePose (extractor outputs)]> result))
      | Some (DensePoseEmbeddingPredictorOutput _) =>
          let extractor := DensePoseOutputsExtractor in
          inr (append (<["pred_densepose" := DDensePose (extractor outputs)]> result))
      | Some (OtherPredictorOutput _) => inl (UnboundLocalError "extractor")
      | None => inr (append result)
      end
  | None => inr (append result)
  end.

(** Lines 184-187. *)
Definition dump_create_context (output : string) : dump_context :=
  DumpContext [] output.

(** Lines 189-197.  [fs_paths] is what [os.path.exists] sees; [os.makedirs],
    [open] and [torch.save] are taken to succeed. *)
Definition dump_postexecute (context : dump_context) : prog dump_fs py_exn unit :=
  λ fs,
  let out_fname := dump_out_fname context in
  let out_dir := os_path_dirname out_fname in
  let fs := if bool_decide (0 < String.length out_dir)%nat
               && negb (bool_decide (out_dir ∈ fs_paths fs))
            then DumpFs (out_dir :: fs_paths fs) (fs_log fs ++ [Makedirs out_dir])
            else fs in
  (inr (), DumpFs (out_fname :: fs_paths fs)
             (fs_log fs ++ [TorchSave out_fname (dump_results context)])).

(** The dump action as an action; [predict] stands for [read_image] and the
    predictor. *)
Definition DumpAction (output : string) (file_list : list string)
    (predict : string → instances)
  : InferenceAction dump_fs py_exn unit dump_context unit instances := {|
  act_setup_config := pret ();
  act_get_input_file_list := pret file_list;
  act_predict := λ _ file_name, pret ((), predict file_name);
  act_create_context := λ _, pret (dump_create_context output);
  act_execute_on_outputs := λ context file_name _ outputs fs,
    match dump_execute_on_outputs context file_name outputs with
    | inl e => (inl e, fs)
    | inr context => (inr context, fs)
    end;
  act_postexecute := dump_postexecute
|}.

(** [extractor] is unbound for these outputs. *)
Definition no_extractor (outputs : instances) : Prop :=
  is_Some (pred_boxes outputs)
  ∧ ∃ data, pred_densepose outputs = Some (OtherPredictorOutput data).

End DumpAction.

(** * Verification *)

(** ** The model on small inputs *)

Example slice_inside : slice_indices 1 3 4 = (1%nat, 2%nat).
Proof. reflexivity. Qed.

Example slice_clipped : slice_indices 1 3 2 = (1%nat, 1%nat).
Proof. reflexivity. Qed.

Example slice_outside : slice_indices 5 6 2 = (2%nat, 0%nat).
Proof. reflexivity. Qed.

Example slice_from_the_end : slice_indices (-1) 4 3 = (2%nat, 1%nat).
Proof. reflexivity. Qed.

Example i32_add_wraps : i32_add (2 ^ 31 - 1) 1 = - 2 ^ 31.
Proof. reflexivity. Qed.

Example true_divide_one_third : int_true_divide 1 3 = Float64 6004799503160661 (-54).
Proof. reflexivity. Qed.

Example true_divide_ties_to_even : int_true_divide (2 ^ 53 + 1) 1 = Float64 (2 ^ 52) 1.
Proof. reflexivity. Qed.

Example int_of_float_truncates : int_of_float (int_true_divide 7 2) = 3.
Proof. reflexivity. Qed.

Example percent_of_640 : int_of_float (int_true_divide (640 * 200) 100) = 1280.
Proof. reflexivity. Qed.

Example scale_of_labels : map scale_intensity [0; 1; 9; 23; 24] = [0; 10; 95; 244; 255].
Proof. reflexivity. Qed.

Example threshold_of_part :
  assign_where (λ v, v =? 9) 255 (assign_where (λ v, negb (v =? 9)) 0 [[0; 9]; [1; 9]])
  = [[0; 255]; [0; 255]].
Proof. reflexivity. Qed.

Example paste_broadcasts_one_pixel :
  paste 0 2 1 1 [[(1, 2, 3)]] (np_full 2 2 white)
  = [[white; (1, 2, 3)]; [white; (1, 2, 3)]].
Proof. reflexivity. Qed.

(** ** Running programs *)

Lemma bind_ok {A B} (m : M A) (k : A → M B) σ x σ' :
  m σ = (inr x, σ') → (m ≫= k) σ = k x σ'.
Proof. intros H. unfold mbind, M_bind. by rewrite H. Qed.

Lemma bind_raise {A B} (m : M A) (k : A → M B) σ e σ' :
  m σ = (inl e, σ') → (m ≫= k) σ = (inl e, σ').
Proof. intros H. unfold mbind, M_bind. by rewrite H. Qed.

Lemma set_heap_twice f g σ : set_heap f (set_heap g σ) = set_heap (f ∘ g) σ.
Proof. by destruct σ. Qed.

Lemma set_heap_insert_insert l a b σ :
  set_heap (insert l a) (set_heap (insert l b) σ) = set_heap (insert l a) σ.
Proof. destruct σ; unfold set_heap; simpl. by rewrite insert_insert_eq. Qed.

Lemma fresh_loc_ne (h : gmap loc ndarray) l : is_Some (h !! l) → l ≠ fresh (dom h).
Proof.
  intros Hl ->. apply elem_of_dom in Hl. by apply is_fresh in Hl.
Qed.

Lemma run_load_gray σ l a :
  heap σ !! l = Some (Gray a) → load_gray l σ = (inr a, σ).
Proof. intros H. unfold load_gray. by rewrite H. Qed.

Lemma run_load_bgr σ l a :
  heap σ !! l = Some (Bgr a) → load_bgr l σ = (inr a, σ).
Proof. intros H. unfold load_bgr. by rewrite H. Qed.

Lemma run_load σ l a : heap σ !! l = Some a → load l σ = (inr a, σ).
Proof. intros H. unfold load. by rewrite H. Qed.

Lemma run_setitem_where σ l mask v a :
  heap σ !! l = Some (Gray a) →
  setitem_where l mask v σ
  = (inr (), set_heap (insert l (Gray (assign_where mask v a))) σ).
Proof.
  intros H. unfold setitem_where. by rewrite (bind_ok _ _ _ _ _ (run_load_gray _ _ _ H)).
Qed.

Lemma heap_set_heap_insert l a σ : heap (set_heap (insert l a) σ) !! l = Some a.
Proof. apply lookup_insert_eq. Qed.

Lemma heap_set_heap_insert_ne l l' a σ :
  l ≠ l' → heap (set_heap (insert l a) σ) !! l' = heap σ !! l'.
Proof. intros. by apply lookup_insert_ne. Qed.

(** ** Masked assignments *)

Lemma assign_where_shape {A} (mask : A → bool) v (a : list (list A)) h w :
  has_shape a h w → has_shape (assign_where mask v a) h w.
Proof.
  intros [Hh Hw]. split.
  - unfold assign_where. by rewrite length_map.
  - unfold assign_where. apply Forall_map. eapply Forall_impl; [exact Hw|].
    intros r Hr. simpl. by rewrite length_map.
Qed.

Lemma map2_shape {A B} (f : A → B) (a : list (list A)) h w :
  has_shape a h w → has_shape (map (map f) a) h w.
Proof.
  intros [Hh Hw]. split.
  - by rewrite length_map.
  - apply Forall_map. eapply Forall_impl; [exact Hw|].
    intros r Hr. simpl. by rewrite length_map.
Qed.

Lemma map2_map2 {A B C} (f : A → B) (g : B → C) (a : list (list A)) :
  map (map g) (map (map f) a) = map (map (g ∘ f)) a.
Proof.
  rewrite map_map. apply map_ext. intros r. by rewrite map_map.
Qed.

Lemma map2_ext_Forall {A B} (f g : A → B) (P : A → Prop) (a : list (list A)) :
  (∀ x, P x → f x = g x) → Forall (Forall P) a → map (map f) a = map (map g) a.
Proof.
  intros Hfg Ha. induction Ha as [|r a Hr _ IH]; [done|].
  simpl. f_equal; [|done].
  clear IH. induction Hr as [|x r Hx _ IH]; [done|].
  simpl. f_equal; auto.
Qed.

Lemma map2_Forall {A B} (f : A → B) (P : A → Prop) (Q : B → Prop) (a : list (list A)) :
  (∀ x, P x → Q (f x)) → Forall (Forall P) a → Forall (Forall Q) (map (map f) a).
Proof.
  intros HPQ Ha. apply Forall_map. eapply Forall_impl; [exact Ha|].
  intros r Hr. simpl. apply Forall_map. eapply Forall_impl; [exact Hr|]. done.
Qed.

(** A value that no assignment looks for is left alone. *)
Lemma run_assignments_skip l v : v ∉ l.*1 → run_assignments l v = v.
Proof.
  unfold run_assignments. induction l as [|[s t] l IH]; [done|].
  intros Hv. simpl. apply not_elem_of_cons in Hv as [Hs Hl]. simpl in Hs.
  destruct (Z.eqb_spec v s); [done|]. by apply IH.
Qed.

(** When no target is a source, a chain of assignments is one lookup: the
    first assignment that fires decides. *)
Lemma run_assignments_lookup l v :
  (∀ s t, (s, t) ∈ l → t ∉ l.*1) →
  run_assignments l v
  = match find (λ st, v =? st.1) l with Some st => st.2 | None => v end.
Proof.
  induction l as [|[s t] l IH]; [done|].
  intros Hl. unfold run_assignments. simpl.
  destruct (Z.eqb_spec v s) as [->|Hne].
  - simpl. apply run_assignments_skip.
    intros Ht. apply (Hl s t); [by left|]. simpl. by right.
  - apply IH. intros s' t' Hin Ht'.
    apply (Hl s' t'); [by right|]. simpl. by right.
Qed.

Lemma remap_targets_not_sources s t :
  (s, t) ∈ remap_assignments → t ∉ remap_assignments.*1.
Proof.
  unfold remap_assignments. intros Hin.
  repeat (apply elem_of_cons in Hin as [Hin|Hin];
          [injection Hin as -> ->; apply (bool_decide_unpack _); by vm_compute|]).
  by apply elem_of_nil in Hin.
Qed.

Lemma run_assignments_table v :
  run_assignments remap_assignments v = SymmetryTable v.
Proof.
  rewrite run_assignments_lookup by apply remap_targets_not_sources.
  unfold SymmetryTable, remap_assignments. simpl.
  repeat (destruct (_ =? _); [done|]). done.
Qed.

(** Case analysis on the first integer comparison of the goal. *)
Ltac case_eqb :=
  match goal with
  | |- context [Z.eqb ?a ?b] => destruct (Z.eqb_spec a b)
  end.

Lemma SymmetryTable_range v : 0 ≤ v ≤ 24 → 0 ≤ SymmetryTable v ≤ 23.
Proof.
  intros Hv. unfold SymmetryTable. repeat (case_eqb; [lia|]). lia.
Qed.

Lemma SymmetryTable_not_source v :
  SymmetryTable v ∉ remap_assignments.*1.
Proof.
  unfold SymmetryTable.
  repeat (case_eqb; [apply (bool_decide_unpack _); by vm_compute|]).
  simpl. rewrite !not_elem_of_cons. repeat (split; [done|]). apply not_elem_of_nil.
Qed.

Lemma SymmetryTable_idem v : SymmetryTable (SymmetryTable v) = SymmetryTable v.
Proof.
  rewrite <- (run_assignments_table (SymmetryTable v)).
  apply run_assignments_skip, SymmetryTable_not_source.
Qed.

(** The ten statements of the source, run on an array object. *)
Lemma run_remap_labels σ I a :
  heap σ !! I = Some (Gray a) →
  remap_labels I σ = (inr (), set_heap (insert I (Gray (map (map SymmetryTable) a))) σ).
Proof.
  intros HI. unfold remap_labels.
  rewrite (bind_ok _ _ _ _ _ (run_setitem_where _ _ _ _ _ HI)).
  do 8 (rewrite (bind_ok _ _ _ _ _ (run_setitem_where _ _ _ _ _ (heap_set_heap_insert _ _ _)));
        rewrite set_heap_insert_insert).
  rewrite (run_setitem_where _ _ _ _ _ (heap_set_heap_insert _ _ _)).
  rewrite set_heap_insert_insert.
  do 4 f_equal. unfold assign_where. rewrite !map2_map2.
  apply map_ext. intros r. apply map_ext. intros v.
  rewrite <- run_assignments_table. reflexivity.
Qed.

(** The program is the list [remap_assignments] run in order. *)
Lemma remap_labels_for_each I σ :
  remap_labels I σ
  = for_each remap_assignments (λ st, setitem_where I (λ v, v =? st.1) st.2) σ.
Proof.
  unfold remap_labels, remap_assignments. simpl.
  unfold mbind, M_bind.
  repeat (destruct (setitem_where I _ _ _) as [[?|[]] ?]; [done|]).
  done.
Qed.

(** ** LabelRemapper: the claims *)

(** C1.  On an array object [I] whose pixels are raw labels 0..24, the ten
    in-place masked assignments of lines 379-388, run in the order of the
    source, return normally and leave in [I] the array of the same shape in
    which every pixel is the image of its raw label under the fixed table
    (2→1, 17→15, 18→16, 7→9, 8→10, 11→13, 12→14, 19→21, 20→22, 24→23, every
    other label to itself); nothing else of the world changes.  The chain of
    assignments is that single lookup on every pixel, and no assignment
    looks for a value that an assignment writes. *)
Theorem C1_remap_is_table_lookup (σ : world) (I : loc) (a : list (list Z)) :
  heap σ !! I = Some (Gray a) →
  Forall (Forall (λ v, 0 ≤ v ≤ 24)) a →
  remap_labels I σ
  = (inr (), set_heap (insert I (Gray (map (map SymmetryTable) a))) σ)
  ∧ (∀ h w, has_shape a h w → has_shape (map (map SymmetryTable) a) h w)
  ∧ (∀ v, 0 ≤ v ≤ 24 → run_assignments remap_assignments v = SymmetryTable v)
  ∧ (∀ s t, (s, t) ∈ remap_assignments → t ∉ remap_assignments.*1).
Proof.
  intros HI Ha. split; [|split; [|split]].
  - by apply run_remap_labels.
  - intros h w. apply map2_shape.
  - intros v _. apply run_assignments_table.
  - apply remap_targets_not_sources.
Qed.

Lemma C1_remap_is_table_lookup_witness :
  let σ := World {[ 0%nat := Gray [[0; 2; 24]; [17; 7; 16]] ]} [] [] in
  remap_labels 0%nat σ
  = (inr (), set_heap (insert 0%nat (Gray [[0; 1; 23]; [15; 9; 16]])) σ)
  ∧ has_shape (map (map SymmetryTable) [[0; 2; 24]; [17; 7; 16]]) 2 3.
Proof.
  destruct (C1_remap_is_table_lookup
              (World {[ 0%nat := Gray [[0; 2; 24]; [17; 7; 16]] ]} [] [])
              0%nat [[0; 2; 24]; [17; 7; 16]]) as (Hrun & Hshape & _).
  - reflexivity.
  - repeat constructor; lia.
  - split; [exact Hrun|]. apply Hshape. repeat constructor.
Defined.

(** C2, as amended.  On raw labels 0..24 every pixel of the remapped array
    lies in 0..23, and no pixel holds one of the ten folded labels
    2, 7, 8, 11, 12, 17, 18, 19, 20, 24. *)
Theorem C2_merged_labels_range (σ : world) (I : loc) (a : list (list Z)) :
  heap σ !! I = Some (Gray a) →
  Forall (Forall (λ v, 0 ≤ v ≤ 24)) a →
  ∃ a', remap_labels I σ = (inr (), set_heap (insert I (Gray a')) σ)
        ∧ Forall (Forall (λ v, 0 ≤ v ≤ 23 ∧ v ∉ remap_assignments.*1)) a'.
Proof.
  intros HI Ha. exists (map (map SymmetryTable) a). split.
  - by apply run_remap_labels.
  - eapply map2_Forall; [|exact Ha]. intros v Hv. simpl. split.
    + by apply SymmetryTable_range.
    + apply SymmetryTable_not_source.
Qed.

Lemma C2_merged_labels_range_witness :
  ∃ a', remap_labels 0%nat (World {[ 0%nat := Gray [[24; 16; 2]] ]} [] [])
        = (inr (), set_heap (insert 0%nat (Gray a'))
                     (World {[ 0%nat := Gray [[24; 16; 2]] ]} [] []))
        ∧ Forall (Forall (λ v, 0 ≤ v ≤ 23 ∧ v ∉ remap_assignments.*1)) a'.
Proof.
  apply (C2_merged_labels_range _ 0%nat [[24; 16; 2]]).
  - reflexivity.
  - repeat constructor; lia.
Defined.

(** C2 as stated fails: the raw labels 16 and 24 are in 0..24, and the
    remapped array holds 16 and 23, which are not in 0..15. *)
Lemma C2_counterexample :
  Forall (Forall (λ v, 0 ≤ v ≤ 24)) [[16; 24]]
  ∧ remap_labels 0%nat (World {[ 0%nat := Gray [[16; 24]] ]} [] [])
    = (inr (), World {[ 0%nat := Gray [[16; 23]] ]} [] [])
  ∧ ¬ Forall (Forall (λ v, 0 ≤ v ≤ 15)) [[16; 23]].
Proof.
  split; [repeat constructor; lia|]. split; [reflexivity|].
  intros H. apply Forall_cons in H as [H _]. apply Forall_cons in H as [H _]. lia.
Qed.

(** C8.  Remapping an array that is already remapped changes nothing: on
    raw labels 0..24, running the ten assignments a second time returns the
    very world the first run left, and every value of the table is a fixed
    point of the table. *)
Theorem C8_remap_idempotent (σ : world) (I : loc) (a : list (list Z)) :
  heap σ !! I = Some (Gray a) →
  Forall (Forall (λ v, 0 ≤ v ≤ 24)) a →
  ∃ σ1, remap_labels I σ = (inr (), σ1)
        ∧ heap σ1 !! I = Some (Gray (map (map SymmetryTable) a))
        ∧ remap_labels I σ1 = (inr (), σ1)
        ∧ map (map SymmetryTable) (map (map SymmetryTable) a) = map (map SymmetryTable) a.
Proof.
  intros HI Ha.
  assert (Hidem : map (map SymmetryTable) (map (map SymmetryTable) a)
                  = map (map SymmetryTable) a).
  { rewrite map2_map2. apply map_ext. intros r. apply map_ext. intros v.
    apply SymmetryTable_idem. }
  eexists. split; [by apply run_remap_labels|]. split; [apply heap_set_heap_insert|].
  split; [|exact Hidem].
  rewrite (run_remap_labels _ _ _ (heap_set_heap_insert _ _ _)).
  by rewrite set_heap_insert_insert, Hidem.
Qed.

Lemma C8_remap_idempotent_witness :
  ∃ σ1, remap_labels 0%nat (World {[ 0%nat := Gray [[2; 24; 5]] ]} [] []) = (inr (), σ1)
        ∧ heap σ1 !! 0%nat = Some (Gray (map (map SymmetryTable) [[2; 24; 5]]))
        ∧ remap_labels 0%nat σ1 = (inr (), σ1)
        ∧ map (map SymmetryTable) (map (map SymmetryTable) [[2; 24; 5]])
          = map (map SymmetryTable) [[2; 24; 5]].
Proof.
  apply (C8_remap_idempotent _ 0%nat [[2; 24; 5]]).
  - reflexivity.
  - repeat constructor; lia.
Defined.

(** C4, as amended.  The remapping step has no failure path: for every
    array of labels, in range or not, it returns normally; each value is
    cut to its low eight bits by the cast to [uint8], the ten folded labels
    are remapped, and every other value (25..255 included) is passed
    through. *)
Theorem C4_remap_never_fails (σ : world) (labels : list (list Z)) :
  ∃ I, label_remapper labels σ
       = (inr I, set_heap (insert I (Gray (map (map (λ v, SymmetryTable (v mod 256))) labels))) σ)
       ∧ heap σ !! I = None.
Proof.
  exists (fresh (dom (heap σ))). split.
  - unfold label_remapper.
    erewrite bind_ok; [|reflexivity].
    erewrite bind_ok; [|apply run_remap_labels, heap_set_heap_insert].
    unfold mret, M_ret. rewrite set_heap_insert_insert, map2_map2. reflexivity.
  - apply not_elem_of_dom, is_fresh.
Qed.

(** C4 as stated fails: the labels 25 and 258 are outside 0..24, and the
    step returns normally, 25 passed through and 258 silently turned
    into 1. *)
Lemma C4_counterexample :
  Exists (Exists (λ v, ¬ 0 ≤ v ≤ 24)) [[25; 258]]
  ∧ label_remapper [[25; 258]] (World ∅ [] [])
    = (inr 0%nat, World {[ 0%nat := Gray [[25; 1]] ]} [] []).
Proof.
  split; [|reflexivity]. apply Exists_cons_hd, Exists_cons_hd. lia.
Qed.

(** ** A weakest precondition for programs *)

Lemma wp_elim {A} (m : M A) σ Φ : wp m σ Φ → ∃ r σ', m σ = (r, σ') ∧ Φ r σ'.
Proof. unfold wp. intros H. exists (m σ).1, (m σ).2. by destruct (m σ). Qed.

Lemma wp_mono {A} (m : M A) σ (Φ Ψ : exn + A → world → Prop) :
  wp m σ Φ → (∀ r σ', Φ r σ' → Ψ r σ') → wp m σ Ψ.
Proof. unfold wp. auto. Qed.

Lemma wp_bind {A B} (m : M A) (k : A → M B) σ Φ :
  wp m σ (λ r σ', match r with
                  | inl e => Φ (inl e) σ'
                  | inr x => wp (k x) σ' Φ
                  end) →
  wp (m ≫= k) σ Φ.
Proof.
  unfold wp, mbind, M_bind. by destruct (m σ) as [[e|x] σ'].
Qed.

Lemma wp_ret {A} (x : A) σ (Φ : exn + A → world → Prop) :
  Φ (inr x) σ → wp (mret x) σ Φ.
Proof. done. Qed.

Lemma wp_raise {A} e σ (Φ : exn + A → world → Prop) :
  Φ (inl e) σ → wp (raise e) σ Φ.
Proof. done. Qed.

Lemma wp_alloc a σ (Φ : exn + loc → world → Prop) :
  (∀ l, heap σ !! l = None → Φ (inr l) (set_heap (insert l a) σ)) →
  wp (alloc a) σ Φ.
Proof. intros H. apply H, not_elem_of_dom, is_fresh. Qed.

Lemma wp_load_gray l a σ (Φ : exn + list (list Z) → world → Prop) :
  heap σ !! l = Some (Gray a) → Φ (inr a) σ → wp (load_gray l) σ Φ.
Proof. intros Hl H. unfold wp. by rewrite (run_load_gray _ _ _ Hl). Qed.

Lemma wp_load_bgr l a σ (Φ : exn + list (list pixel) → world → Prop) :
  heap σ !! l = Some (Bgr a) → Φ (inr a) σ → wp (load_bgr l) σ Φ.
Proof. intros Hl H. unfold wp. by rewrite (run_load_bgr _ _ _ Hl). Qed.

Lemma wp_load l a σ (Φ : exn + ndarray → world → Prop) :
  heap σ !! l = Some a → Φ (inr a) σ → wp (load l) σ Φ.
Proof. intros Hl H. unfold wp. by rewrite (run_load _ _ _ Hl). Qed.

Lemma wp_store l a σ (Φ : exn + unit → world → Prop) :
  Φ (inr ()) (set_heap (insert l a) σ) → wp (store l a) σ Φ.
Proof. done. Qed.

Lemma wp_emit e σ (Φ : exn + unit → world → Prop) :
  Φ (inr ()) (World (heap σ) (dirs σ) (disk σ ++ [e])) → wp (emit e) σ Φ.
Proof. done. Qed.

Lemma wp_np_copy l a σ (Φ : exn + loc → world → Prop) :
  heap σ !! l = Some a →
  (∀ l', heap σ !! l' = None → Φ (inr l') (set_heap (insert l' a) σ)) →
  wp (np_copy l) σ Φ.
Proof.
  intros Hl H. unfold np_copy. apply wp_bind, (wp_load _ _ _ _ Hl), wp_alloc, H.
Qed.

Lemma wp_setitem_where l mask v a σ (Φ : exn + unit → world → Prop) :
  heap σ !! l = Some (Gray a) →
  Φ (inr ()) (set_heap (insert l (Gray (assign_where mask v a))) σ) →
  wp (setitem_where l mask v) σ Φ.
Proof.
  intros Hl H. unfold wp. by rewrite (run_setitem_where _ _ _ _ _ Hl).
Qed.

Lemma wp_np_save path l a σ (Φ : exn + unit → world → Prop) :
  heap σ !! l = Some a →
  Φ (inr ()) (World (heap σ) (dirs σ) (disk σ ++ [NpSave path a])) →
  wp (np_save path l) σ Φ.
Proof.
  intros Hl H. unfold np_save. by apply wp_bind, (wp_load _ _ _ _ Hl), wp_emit.
Qed.

Lemma wp_imwrite path l a σ (Φ : exn + unit → world → Prop) :
  heap σ !! l = Some a →
  Φ (inr ()) (World (heap σ) (dirs σ) (disk σ ++ [ImWrite path a])) →
  wp (cv2_imwrite path l) σ Φ.
Proof.
  intros Hl H. unfold cv2_imwrite. by apply wp_bind, (wp_load _ _ _ _ Hl), wp_emit.
Qed.

(** Lookups in a heap that grew by stores and allocations. *)
Ltac heap_lookup :=
  simpl in *;
  repeat match goal with
         | H : <[_:=_]> _ !! _ = None |- _ => apply lookup_insert_None in H as [H ?]
         end;
  repeat first
    [ assumption
    | apply lookup_insert_eq
    | rewrite lookup_insert_ne by congruence ].

(** ** Pixels of arrays *)

Lemma px_map2 {A B} (f : A → B) (a : list (list A)) i j :
  px (map (map f) a) i j = f <$> px a i j.
Proof.
  unfold px. rewrite list_lookup_fmap.
  destruct (a !! i) as [r|]; [|done]. simpl. apply list_lookup_fmap.
Qed.

Lemma px_Forall {A} (P : A → Prop) (a : list (list A)) :
  Forall (Forall P) a ↔ ∀ i j v, px a i j = Some v → P v.
Proof.
  split.
  - intros Ha i j v Hv. unfold px in Hv.
    destruct (a !! i) as [r|] eqn:Hr; [|done]. simpl in Hv.
    eapply Forall_lookup_1 in Ha; [|exact Hr].
    eapply Forall_lookup_1 in Ha; [|exact Hv]. done.
  - intros H. apply Forall_lookup_2. intros i r Hr.
    apply Forall_lookup_2. intros j v Hv. apply (H i j v).
    unfold px. by rewrite Hr.
Qed.

Lemma pixel_eqb_eq p q : pixel_eqb p q = true ↔ p = q.
Proof.
  destruct p as [[b1 g1] r1], q as [[b2 g2] r2]. simpl.
  rewrite !andb_true_iff, !Z.eqb_eq. split.
  - by intros [[-> ->] ->].
  - by intros [= -> -> ->].
Qed.

(** ** Worlds that only grow *)

Lemma extends_refl σ : extends σ σ.
Proof. done. Qed.

Lemma extends_alloc σ σ' l a :
  extends σ σ' → heap σ' !! l = None → extends σ (set_heap (insert l a) σ').
Proof.
  intros (Hh & Hd & Hk) Hl. split; [|done]. simpl.
  etrans; [exact Hh|]. by apply insert_subseteq.
Qed.

Lemma extends_store σ σ' l a :
  extends σ σ' → heap σ !! l = None → extends σ (set_heap (insert l a) σ').
Proof.
  intros (Hh & Hd & Hk) Hl. split; [|done]. simpl.
  by apply insert_subseteq_r.
Qed.

Lemma extends_lookup σ σ' l a :
  extends σ σ' → heap σ !! l = Some a → heap σ' !! l = Some a.
Proof. intros (Hh & _) Hl. by eapply lookup_weaken. Qed.

Lemma extends_fresh σ σ' l :
  extends σ σ' → heap σ' !! l = None → heap σ !! l = None.
Proof.
  intros (Hh & _) Hl. destruct (heap σ !! l) eqn:E; [|done].
  eapply lookup_weaken in E; [|exact Hh]. congruence.
Qed.

Section Colorizer.
Context `{cv : OpenCV}.

Lemma wp_colorize I a σ (Φ : exn + loc → world → Prop) :
  heap σ !! I = Some (Gray a) →
  (∀ I' σ', extends σ σ' → heap σ !! I' = None →
            heap σ' !! I' = Some (Bgr (map (map colorized_pixel) a)) →
            Φ (inr I') σ') →
  wp (colorize I) σ Φ.
Proof.
  intros HI HΦ. unfold colorize.
  apply wp_bind, (wp_load_gray _ _ _ _ HI).
  apply wp_bind, wp_alloc. intros l1 Hl1.
  eapply wp_bind, wp_load_gray; [by heap_lookup|].
  apply wp_bind, wp_alloc. intros l2 Hl2.
  apply wp_bind, wp_alloc. intros l3 Hl3.
  eapply wp_bind, wp_load_bgr; [by heap_lookup|].
  eapply wp_bind, wp_load_bgr; [by heap_lookup|].
  apply wp_bind, wp_store, wp_ret.
  simpl in Hl2, Hl3.
  apply lookup_insert_None in Hl2 as [Hl2 ?].
  apply lookup_insert_None in Hl3 as [Hl3 ?].
  apply lookup_insert_None in Hl3 as [Hl3 ?].
  apply HΦ; [|done|].
  - repeat first [apply extends_store; [|done] | apply extends_refl].
  - simpl. rewrite lookup_insert_eq. do 2 f_equal.
    unfold assign_where, applyColorMap_gray. rewrite !map2_map2.
    apply map_ext. intros r. apply map_ext. intros v.
    unfold colorized_pixel, at2. simpl.
    change (0, 0, 0) with black. by rewrite bgr2gray_black.
Qed.

(** C7.  When every pixel of the merged label array is 0, the Colorizer
    followed by the background correction returns an image of the shape of
    the label array in which every pixel is exactly (255, 255, 255). *)
Theorem C7_all_background_is_white (σ : world) (I : loc) (a : list (list Z)) :
  heap σ !! I = Some (Gray a) →
  Forall (Forall (λ v, v = 0)) a →
  ∃ I' σ' out,
    colorize I σ = (inr I', σ')
    ∧ heap σ' !! I' = Some (Bgr out)
    ∧ Forall (Forall (λ p, p = (255, 255, 255))) out
    ∧ ∀ h w, has_shape a h w → has_shape out h w.
Proof.
  intros HI Ha.
  destruct (wp_elim (colorize I) σ
    (λ r σ', ∃ I', r = inr I' ∧ heap σ' !! I' = Some (Bgr (map (map colorized_pixel) a))))
    as (r & σ' & Hrun & I' & -> & HI').
  { apply (wp_colorize _ _ _ _ HI). intros I' σ' _ _ H. eauto. }
  exists I', σ', (map (map colorized_pixel) a).
  split; [done|]. split; [done|]. split.
  - eapply map2_Forall; [|exact Ha]. intros v ->. simpl.
    unfold colorized_pixel. change (scale_intensity 0) with 0.
    by rewrite (proj2 (pixel_eqb_eq _ _) eq_refl).
  - intros h w. apply map2_shape.
Qed.


End Colorizer.

Lemma C7_all_background_is_white_witness :
  ∃ I' σ' out,
    colorize (cv := small_cv) 0%nat (World {[ 0%nat := Gray [[0; 0]; [0; 0]] ]} [] [])
    = (inr I', σ')
    ∧ heap σ' !! I' = Some (Bgr out)
    ∧ Forall (Forall (λ p, p = (255, 255, 255))) out
    ∧ ∀ h w, has_shape [[0; 0]; [0; 0]] h w → has_shape out h w.
Proof.
  apply (C7_all_background_is_white (cv := small_cv) _ 0%nat [[0; 0]; [0; 0]]).
  - reflexivity.
  - repeat constructor.
Defined.



(** ** Shapes and slices *)

Lemma has_shape_nrows {A} (a : list (list A)) h w : has_shape a h w → nrows a = h.
Proof. by intros [? _]. Qed.

Lemma has_shape_ncols {A} (a : list (list A)) h w :
  has_shape a h w → (0 < h)%nat → ncols a = w.
Proof.
  intros [Hh Hw] Hpos. destruct a as [|r a]; simpl in *; [lia|].
  by apply Forall_cons in Hw as [? _].
Qed.

Lemma np_full_shape {A} h w (v : A) : has_shape (np_full h w v) h w.
Proof.
  split.
  - apply length_replicate.
  - apply Forall_replicate. apply length_replicate.
Qed.

Lemma px_np_full {A} h w (v : A) i j :
  (i < h)%nat → (j < w)%nat → px (np_full h w v) i j = Some v.
Proof.
  intros Hi Hj. unfold px, np_full.
  rewrite lookup_replicate_2 by done. simpl. by apply lookup_replicate_2.
Qed.

Lemma px_at2 {A} (d : A) (a : list (list A)) h w i j :
  has_shape a h w → (i < h)%nat → (j < w)%nat → px a i j = Some (at2 d a i j).
Proof.
  intros [Hh Hw] Hi Hj. unfold px, at2.
  destruct (lookup_lt_is_Some_2 a i) as [r Hr]; [lia|].
  rewrite Hr. simpl. rewrite (nth_lookup_Some _ _ [] _ Hr).
  eapply Forall_lookup_1 in Hw; [|exact Hr].
  destruct (lookup_lt_is_Some_2 r j) as [p Hp]; [lia|].
  by rewrite Hp, (nth_lookup_Some _ _ d _ Hp).
Qed.

Lemma lookup_update_range {A} off len (f : nat → A → A) (l : list A) k :
  update_range off len f l !! k
  = (λ x, if bool_decide (off ≤ k < off + len)%nat then f (k - off)%nat x else x) <$> l !! k.
Proof. unfold update_range. apply list_lookup_imap. Qed.

Lemma length_update_range {A} off len (f : nat → A → A) (l : list A) :
  length (update_range off len f l) = length l.
Proof. unfold update_range. apply length_imap. Qed.

Lemma paste_shape r0 th c0 tw v canvas h w :
  has_shape canvas h w → has_shape (paste r0 th c0 tw v canvas) h w.
Proof.
  intros [Hh Hw]. unfold paste. split.
  - by rewrite length_update_range.
  - apply Forall_lookup_2. intros i r Hr.
    rewrite lookup_update_range in Hr.
    destruct (canvas !! i) as [r0'|] eqn:Hc; [|done]. simpl in Hr.
    eapply Forall_lookup_1 in Hw; [|exact Hc].
    injection Hr as <-. case_bool_decide; [|done].
    by rewrite length_update_range.
Qed.

(** A pixel of the canvas after [paste]. *)
Lemma px_paste r0 th c0 tw v canvas i j :
  px (paste r0 th c0 tw v canvas) i j
  = (λ p, if bool_decide (r0 ≤ i < r0 + th)%nat && bool_decide (c0 ≤ j < c0 + tw)%nat
          then at2 white v (if bool_decide (nrows v = 1%nat) then 0%nat else (i - r0)%nat)
                           (if bool_decide (ncols v = 1%nat) then 0%nat else (j - c0)%nat)
          else p) <$> px canvas i j.
Proof.
  unfold px, paste. rewrite lookup_update_range.
  destruct (canvas !! i) as [r|]; [|done]. simpl.
  case_bool_decide; simpl; [|by destruct (r !! j)].
  rewrite lookup_update_range. by destruct (r !! j).
Qed.

(** A slice with both bounds inside the axis. *)
Lemma slice_indices_inside start stop n :
  0 ≤ start → start ≤ stop → stop ≤ Z.of_nat n →
  slice_indices start stop n = (Z.to_nat start, Z.to_nat (stop - start)).
Proof.
  intros H0 H1 H2. unfold slice_indices.
  destruct (Z.ltb_spec start 0), (Z.ltb_spec stop 0); try lia.
  f_equal; lia.
Qed.

(** A slice whose upper bound is beyond the axis is shorter than asked. *)
Lemma slice_indices_beyond start len n :
  0 < len → Z.of_nat n < start + len →
  (Z.of_nat (slice_indices start (start + len) n).2 < len).
Proof.
  intros H0 H1. unfold slice_indices. simpl.
  destruct (Z.ltb_spec start 0), (Z.ltb_spec (start + len) 0); lia.
Qed.

Lemma wrap32_id z : - 2 ^ 31 ≤ z < 2 ^ 31 → wrap32 z = z.
Proof.
  intros Hz. unfold wrap32. rewrite Z.mod_small; lia.
Qed.

(** ** Canvas Compositor *)

(** The slice assignment when the box is inside the canvas and the value
    has the shape of the box. *)
Lemma wp_composite_inside image I im c x y w h H W σ (Φ : exn + loc → world → Prop) :
  heap σ !! image = Some (Bgr im) → has_shape im H W →
  heap σ !! I = Some (Bgr c) → has_shape c (Z.to_nat h) (Z.to_nat w) →
  0 ≤ x → 0 ≤ y → 0 < w → 0 < h →
  x + w ≤ Z.of_nat W → y + h ≤ Z.of_nat H →
  Z.of_nat W < 2 ^ 31 → Z.of_nat H < 2 ^ 31 →
  (∀ canvas, heap σ !! canvas = None →
     Φ (inr canvas)
       (set_heap (insert canvas
          (Bgr (paste (Z.to_nat y) (Z.to_nat h) (Z.to_nat x) (Z.to_nat w) c
                  (np_full H W white)))) σ)) →
  wp (composite image (x, y, w, h) I) σ Φ.
Proof.
  intros Him Hsh HI Hc Hx Hy Hw Hh HxW HyH HW HH HΦ. unfold composite.
  apply wp_bind, (wp_load_bgr _ _ _ _ Him).
  apply wp_bind, wp_alloc. intros canvas Hcanvas.
  apply wp_bind. unfold setitem_slice2.
  eapply wp_bind, wp_load_bgr; [by heap_lookup|].
  assert (canvas ≠ I) by congruence.
  eapply wp_bind, wp_load_bgr; [by heap_lookup|].
  assert (HnH : nrows im = H) by by eapply has_shape_nrows.
  assert (HnW : ncols im = W) by (eapply has_shape_ncols; [done|lia]).
  rewrite HnH, HnW.
  rewrite (has_shape_nrows _ _ _ (np_full_shape H W _)).
  rewrite (has_shape_ncols _ _ _ (np_full_shape H W _)) by lia.
  unfold i32_add. rewrite !wrap32_id by lia.
  rewrite !slice_indices_inside by lia.
  rewrite (has_shape_nrows _ _ _ Hc), (has_shape_ncols _ _ _ Hc) by lia.
  replace (y + h - y) with h by lia. replace (x + w - x) with w by lia.
  unfold broadcastable.
  rewrite (bool_decide_eq_true_2 (Z.to_nat h = Z.to_nat h)) by done.
  rewrite (bool_decide_eq_true_2 (Z.to_nat w = Z.to_nat w)) by done. simpl.
  apply wp_store, wp_ret. rewrite set_heap_insert_insert. by apply HΦ.
Qed.

(** The slice assignment when the box sticks out of the canvas on an axis
    on which the value has more than one element. *)
Lemma wp_composite_beyond image I im c x y w h H W σ (Φ : exn + loc → world → Prop) :
  heap σ !! image = Some (Bgr im) → has_shape im H W → (0 < H)%nat →
  heap σ !! I = Some (Bgr c) → has_shape c (Z.to_nat h) (Z.to_nat w) →
  0 < w → 0 < h →
  - 2 ^ 31 ≤ x → - 2 ^ 31 ≤ y → x + w < 2 ^ 31 → y + h < 2 ^ 31 →
  (Z.of_nat W < x + w ∧ w ≠ 1) ∨ (Z.of_nat H < y + h ∧ h ≠ 1) →
  (∀ σ', dirs σ' = dirs σ → disk σ' = disk σ → Φ (inl ValueError) σ') →
  wp (composite image (x, y, w, h) I) σ Φ.
Proof.
  intros Him Hsh HH HI Hc Hw Hh Hx Hy HxW HyH Hout HΦ. unfold composite.
  apply wp_bind, (wp_load_bgr _ _ _ _ Him).
  apply wp_bind, wp_alloc. intros canvas Hcanvas.
  apply wp_bind. unfold setitem_slice2.
  eapply wp_bind, wp_load_bgr; [by heap_lookup|].
  assert (canvas ≠ I) by congruence.
  eapply wp_bind, wp_load_bgr; [by heap_lookup|].
  rewrite (has_shape_nrows _ _ _ Hsh), (has_shape_ncols _ _ _ Hsh) by done.
  rewrite (has_shape_nrows _ _ _ (np_full_shape H W _)).
  rewrite (has_shape_ncols _ _ _ (np_full_shape H W _)) by done.
  unfold i32_add. rewrite !wrap32_id by lia.
  rewrite (has_shape_nrows _ _ _ Hc), (has_shape_ncols _ _ _ Hc) by lia.
  destruct (slice_indices y (y + h) H) as [r0 th] eqn:Hrows.
  destruct (slice_indices x (x + w) W) as [c0 tw] eqn:Hcols.
  assert (Hfail : broadcastable (Z.to_nat h) th && broadcastable (Z.to_nat w) tw = false).
  { apply andb_false_iff. unfold broadcastable.
    destruct Hout as [[HW Hw1]|[HH' Hh1]].
    - right. pose proof (slice_indices_beyond x w W Hw HW) as Hlt.
      rewrite Hcols in Hlt. simpl in Hlt.
      rewrite !bool_decide_eq_false_2; [done| |]; lia.
    - left. pose proof (slice_indices_beyond y h H Hh HH') as Hlt.
      rewrite Hrows in Hlt. simpl in Hlt.
      rewrite !bool_decide_eq_false_2; [done| |]; lia. }
  rewrite Hfail. apply wp_raise. by apply HΦ.
Qed.

(** C6.  For a box (x, y, w, h) inside the source image and a colorized
    image of shape (h, w), the compositing step returns a new canvas of the
    shape of the source image, whatever the box; the region
    [y:y+h, x:x+w] of the canvas is the colorized image and every pixel
    outside it is (255, 255, 255).  (Image sides are C [int]s.) *)
Theorem C6_composite_on_white_canvas (σ : world) (image I : loc)
    (im c : list (list pixel)) (x y w h : Z) (H W : nat) :
  heap σ !! image = Some (Bgr im) → has_shape im H W →
  heap σ !! I = Some (Bgr c) → has_shape c (Z.to_nat h) (Z.to_nat w) →
  0 ≤ x → 0 ≤ y → 0 < w → 0 < h →
  x + w ≤ Z.of_nat W → y + h ≤ Z.of_nat H →
  Z.of_nat W < 2 ^ 31 → Z.of_nat H < 2 ^ 31 →
  ∃ canvas σ' out,
    composite image (x, y, w, h) I σ = (inr canvas, σ')
    ∧ heap σ' !! canvas = Some (Bgr out)
    ∧ has_shape out H W
    ∧ ∀ i j, (i < H)%nat → (j < W)%nat →
        px out i j
        = if bool_decide (y ≤ Z.of_nat i < y + h ∧ x ≤ Z.of_nat j < x + w)
          then px c (i - Z.to_nat y) (j - Z.to_nat x)
          else Some (255, 255, 255).
Proof.
  intros Him Hsh HI Hc Hx Hy Hw Hh HxW HyH HW HH.
  set (out := paste (Z.to_nat y) (Z.to_nat h) (Z.to_nat x) (Z.to_nat w) c
                (np_full H W white)).
  destruct (wp_elim (composite image (x, y, w, h) I) σ
    (λ r σ', ∃ canvas, r = inr canvas ∧ heap σ' !! canvas = Some (Bgr out)))
    as (r & σ' & Hrun & canvas & -> & Hcanvas).
  { eapply wp_composite_inside; try done.
    intros canvas _. exists canvas. split; [done|]. apply heap_set_heap_insert. }
  exists canvas, σ', out. split; [done|]. split; [done|]. split.
  - apply paste_shape, np_full_shape.
  - intros i j Hi Hj. unfold out. rewrite px_paste, px_np_full by done. simpl.
    destruct (decide (y ≤ Z.of_nat i < y + h ∧ x ≤ Z.of_nat j < x + w))
      as [[Hrow Hcol]|Hin].
    + rewrite (bool_decide_eq_true_2 (_ ∧ _ ≤ Z.of_nat j < _)) by done.
      rewrite (bool_decide_eq_true_2 (_ ≤ i < _)%nat) by lia.
      rewrite (bool_decide_eq_true_2 (_ ≤ j < _)%nat) by lia. simpl.
      rewrite (px_at2 white c (Z.to_nat h) (Z.to_nat w)) by (done || lia).
      rewrite (has_shape_nrows _ _ _ Hc), (has_shape_ncols _ _ _ Hc) by lia.
      do 2 f_equal.
      * case_bool_decide; lia.
      * case_bool_decide; lia.
    + rewrite (bool_decide_eq_false_2 (_ ∧ _ ≤ Z.of_nat j < _)) by done.
      apply not_and_l in Hin as [Hrow|Hcol].
      * rewrite (bool_decide_eq_false_2 (_ ≤ i < _)%nat) by lia. done.
      * rewrite (bool_decide_eq_false_2 (_ ≤ j < _)%nat) by lia.
        by rewrite andb_false_r.
Qed.

Lemma C6_composite_on_white_canvas_witness :
  let c := [[(1, 2, 3); (4, 5, 6)]] in
  let σ := World {[ 0%nat := Bgr (np_full 2 3 black); 1%nat := Bgr c ]} [] [] in
  ∃ canvas σ' out,
    composite 0%nat (1, 1, 2, 1) 1%nat σ = (inr canvas, σ')
    ∧ heap σ' !! canvas = Some (Bgr out)
    ∧ has_shape out 2 3
    ∧ ∀ i j, (i < 2)%nat → (j < 3)%nat →
        px out i j
        = if bool_decide (1 ≤ Z.of_nat i < 1 + 1 ∧ 1 ≤ Z.of_nat j < 1 + 2)
          then px c (i - Z.to_nat 1) (j - Z.to_nat 1)
          else Some (255, 255, 255).
Proof.
  apply (C6_composite_on_white_canvas _ 0%nat 1%nat (np_full 2 3 black)
           [[(1, 2, 3); (4, 5, 6)]] 1 1 2 1 2 3).
  - reflexivity.
  - apply np_full_shape.
  - reflexivity.
  - split; [reflexivity|]. by repeat constructor.
  - lia.
  - lia.
  - lia.
  - lia.
  - simpl; lia.
  - simpl; lia.
  - simpl; lia.
  - simpl; lia.
Defined.

(** ** Upscaler *)

(** An exact quotient below 2^53 is a binary64 value: Python's true
    division returns it and [int] gives it back. *)
Lemma int_true_divide_exact q b :
  0 < q < 2 ^ 53 → 0 < b → int_of_float (int_true_divide (q * b) b) = q.
Proof.
  intros Hq Hb. unfold int_true_divide.
  destruct (Z.eqb_spec (q * b) 0) as [E|_]; [nia|].
  set (e := ilog2_quot (q * b) b - 52).
  assert (He : e ≤ 0).
  { assert (Hlog : Z.log2 q ≤ 52).
    { assert (Z.log2 q < 53) by (apply Z.log2_lt_pow2; lia). lia. }
    assert (HL : Z.log2 (q * b) - Z.log2 b ≤ Z.log2 q + 1).
    { pose proof (Z.log2_mul_above q b). lia. }
    subst e. unfold ilog2_quot.
    set (L := Z.log2 (q * b) - Z.log2 b) in *.
    destruct (Z.leb_spec (b * 2 ^ Z.max 0 L) (q * b * 2 ^ Z.max 0 (- L))) as [Hle|_]; [|lia].
    destruct (Z.le_gt_cases L (Z.log2 q)) as [|Hgt]; [lia|].
    assert (L = Z.log2 q + 1) as HLeq by lia.
    exfalso. pose proof (Z.log2_nonneg q) as Hnn.
    rewrite (Z.max_r 0 L), (Z.max_l 0 (- L)) in Hle by lia.
    rewrite Z.pow_0_r, HLeq in Hle.
    pose proof (Z.log2_spec q ltac:(lia)) as Hspec.
    replace (Z.succ (Z.log2 q)) with (Z.log2 q + 1) in Hspec by lia.
    nia. }
  unfold int_of_float. simpl.
  rewrite (Z.max_r 0 (- e)), (Z.max_l 0 e) by lia.
  rewrite Z.pow_0_r, Z.mul_1_r.
  assert (Hround : round_half_even (q * b * 2 ^ (- e)) b = q * 2 ^ (- e)).
  { unfold round_half_even.
    replace (q * b * 2 ^ (- e)) with (q * 2 ^ (- e) * b) by lia.
    rewrite Z.mod_mul, Z.div_mul by lia.
    destruct (Z.ltb_spec (2 * 0) b); [done|lia]. }
  rewrite Hround.
  destruct (Z.leb_spec 0 e).
  - replace e with 0 by lia. simpl. lia.
  - apply Z.quot_mul. apply Z.pow_nonzero; lia.
Qed.

Lemma percent_doubles n :
  0 < n < 2 ^ 52 → int_of_float (int_true_divide (n * 200) 100) = 2 * n.
Proof.
  intros Hn. replace (n * 200) with (2 * n * 100) by lia.
  apply int_true_divide_exact; lia.
Qed.

Section Bitmaps.
Context `{cv : OpenCV}.

Lemma doubled_shape im h w :
  has_shape im h w → (0 < h)%nat → (0 < w)%nat →
  Z.of_nat h < 2 ^ 52 → Z.of_nat w < 2 ^ 52 →
  has_shape (doubled im) (2 * h) (2 * w).
Proof.
  intros Him Hh Hw Hhb Hwb. unfold doubled.
  rewrite (has_shape_nrows _ _ _ Him), (has_shape_ncols _ _ _ Him) by done.
  rewrite !percent_doubles by lia.
  replace (2 * h)%nat with (Z.to_nat (2 * Z.of_nat h)) by lia.
  replace (2 * w)%nat with (Z.to_nat (2 * Z.of_nat w)) by lia.
  apply resize_shape; lia.
Qed.

Lemma wp_double_image image im σ (Φ : exn + loc → world → Prop) :
  heap σ !! image = Some (Bgr im) →
  (∀ l, heap σ !! l = None → Φ (inr l) (set_heap (insert l (Bgr (doubled im))) σ)) →
  wp (double_image image) σ Φ.
Proof.
  intros Him HΦ. unfold double_image.
  apply wp_bind, (wp_load_bgr _ _ _ _ Him), wp_alloc. exact HΦ.
Qed.

Lemma wp_generate_vector file_in file_out σ (Φ : exn + unit → world → Prop) :
  Φ (inr ()) (World (heap σ) (dirs σ)
     (disk σ ++ [Popen ("autotrace -filter-iterations=4 -input-format bmp -output-format svg -output-file "
                        +:+ file_out +:+ " " +:+ file_in)])) →
  wp (generate_vector file_in file_out) σ Φ.
Proof. intros H. by apply wp_emit. Qed.

Lemma wp_find_body_part body_parts i a σ (Φ : exn + list contour → world → Prop) :
  heap σ !! body_parts = Some (Gray a) →
  (∀ σ', extends σ σ' → Φ (inr (part_contours a i)) σ') →
  wp (find_body_part body_parts i) σ Φ.
Proof.
  intros Hbp HΦ. unfold find_body_part.
  apply wp_bind, (wp_np_copy _ _ _ _ Hbp). intros arr Harr.
  eapply wp_bind, wp_setitem_where; [by heap_lookup|].
  eapply wp_bind, wp_setitem_where; [by heap_lookup|].
  eapply wp_bind, wp_load_gray; [by heap_lookup|].
  fold (threshold a i).
  specialize (HΦ (set_heap (insert arr (Gray (findContours (threshold a i)).2)) σ)).
  unfold part_contours in HΦ.
  destruct (findContours (threshold a i)) as [contours a'].
  apply wp_bind, wp_store, wp_ret. simpl.
  rewrite !set_heap_insert_insert. apply HΦ.
  by apply extends_alloc.
Qed.

Lemma wp_cv2_drawContours img im contours color thickness σ
    (Φ : exn + unit → world → Prop) :
  heap σ !! img = Some (Bgr im) →
  Φ (inr ()) (set_heap (insert img (Bgr (drawContours im contours color thickness))) σ) →
  wp (cv2_drawContours img contours color thickness) σ Φ.
Proof.
  intros Him H. unfold cv2_drawContours.
  by apply wp_bind, (wp_load_bgr _ _ _ _ Him), wp_store.
Qed.

Lemma wp_np_zeros_like image im σ (Φ : exn + loc → world → Prop) :
  heap σ !! image = Some (Bgr im) →
  (∀ l, heap σ !! l = None →
        Φ (inr l) (set_heap (insert l (Bgr (np_full (nrows im) (ncols im) black))) σ)) →
  wp (np_zeros_like image) σ Φ.
Proof.
  intros Him H. unfold np_zeros_like.
  by apply wp_bind, (wp_load_bgr _ _ _ _ Him), wp_alloc.
Qed.

(** The loop over the parts: [image] and [blank] are drawn into, every
    other array object is as it was, nothing reaches the disk. *)
Lemma wp_draw_loop image blank output_orig a parts :
  ∀ σ im bl (Φ : exn + unit → world → Prop),
  heap σ !! image = Some (Bgr im) →
  heap σ !! blank = Some (Bgr bl) →
  heap σ !! output_orig = Some (Gray a) →
  image ≠ blank →
  (∀ σ', heap σ' !! image = Some (Bgr (draw_parts a parts (im, bl)).1) →
         heap σ' !! blank = Some (Bgr (draw_parts a parts (im, bl)).2) →
         (∀ l x, l ≠ image → l ≠ blank → heap σ !! l = Some x → heap σ' !! l = Some x) →
         dirs σ' = dirs σ → disk σ' = disk σ →
         Φ (inr ()) σ') →
  wp (for_each parts (λ i,
        contours ← find_body_part output_orig i;
        if bool_decide (0 < length contours)%nat then
          cv2_drawContours image contours (0, 0, 0) 2;;
          cv2_drawContours blank contours (255, 255, 255) 2
        else mret ())) σ Φ.
Proof.
  induction parts as [|i parts IH]; intros σ im bl Φ Him Hbl Hoo Hne HΦ.
  - apply wp_ret. by apply HΦ.
  - simpl. apply wp_bind, wp_bind.
    apply (wp_find_body_part _ _ _ _ _ Hoo). intros σ1 Hext.
    pose proof (extends_lookup _ _ _ _ Hext Him) as Him1.
    pose proof (extends_lookup _ _ _ _ Hext Hbl) as Hbl1.
    pose proof (extends_lookup _ _ _ _ Hext Hoo) as Hoo1.
    destruct Hext as (Hsub & Hdirs & Hdisk).
    unfold draw_parts in HΦ. simpl in HΦ. unfold draw_part at 2 4 in HΦ.
    destruct (bool_decide (0 < length (part_contours a i))%nat).
    + apply wp_bind, (wp_cv2_drawContours _ _ _ _ _ _ _ Him1).
      eapply wp_cv2_drawContours; [by heap_lookup|].
      eapply IH; [by heap_lookup..|done|].
      intros σ' Him' Hbl' Hfr Hd Hk. simpl in Hd, Hk.
      apply HΦ; [done|done| |congruence|congruence].
      intros l x Hl1 Hl2 Hl. apply Hfr; try done.
      simpl. rewrite !lookup_insert_ne by done. by eapply lookup_weaken.
    + apply wp_ret. eapply IH; [done..|].
      intros σ' Him' Hbl' Hfr Hd Hk.
      apply HΦ; [done|done| |congruence|congruence].
      intros l x Hl1 Hl2 Hl. apply Hfr; try done. by eapply lookup_weaken.
Qed.

(** The four statements that close a mask artifact. *)
Lemma wp_write_mask prefix name a im σ (Φ : exn + unit → world → Prop) :
  heap σ !! a = Some (Bgr im) →
  (∀ σ', heap σ ⊆ heap σ' → dirs σ' = dirs σ →
         disk σ' = disk σ ++ artifact_events prefix name (Bgr (doubled (bitwise_not im))) →
         Φ (inr ()) σ') →
  wp (write_mask prefix name a) σ Φ.
Proof.
  intros Ha HΦ. unfold write_mask.
  apply wp_bind, (wp_load_bgr _ _ _ _ Ha).
  apply wp_bind, wp_alloc. intros l1 Hl1.
  eapply wp_bind, wp_double_image; [by heap_lookup|]. intros l2 Hl2.
  eapply wp_bind, wp_imwrite; [by heap_lookup|].
  apply wp_generate_vector. apply HΦ.
  - simpl in *. apply lookup_insert_None in Hl2 as [Hl2 _].
    by do 2 (apply insert_subseteq_r; [done|]).
  - done.
  - simpl. by rewrite <- app_assoc.
Qed.

(** [generate_bitmaps] as a whole: it returns normally, the colorized image
    [image] is the only array object of the caller that changes, and the
    disk receives the five artifacts, each followed by its tracer. *)
Lemma wp_generate_bitmaps prefix image output_orig outline im a o σ
    (Φ : exn + unit → world → Prop) :
  heap σ !! image = Some (Bgr im) →
  heap σ !! output_orig = Some (Gray a) →
  heap σ !! outline = Some (Gray o) →
  (∀ σ', (∀ l x, l ≠ image → heap σ !! l = Some x → heap σ' !! l = Some x) →
         dirs σ' = dirs σ →
         disk σ' = disk σ ++ bitmap_events prefix im a o →
         Φ (inr ()) σ') →
  wp (generate_bitmaps prefix image output_orig outline) σ Φ.
Proof.
  intros Him Hoo Hol HΦ. unfold generate_bitmaps.
  set (zeros := np_full (nrows im) (ncols im) black).
  apply wp_bind, (wp_np_zeros_like _ _ _ _ Him). intros b Hb. fold zeros.
  eapply wp_bind, wp_np_zeros_like; [by heap_lookup|]. intros bo Hbo. fold zeros.
  eapply wp_bind, wp_np_zeros_like; [by heap_lookup|]. intros so Hso. fold zeros.
  simpl in Hbo, Hso.
  apply lookup_insert_None in Hbo as [Hbo Hbbo].
  apply lookup_insert_None in Hso as [Hso Hboso].
  apply lookup_insert_None in Hso as [Hso Hbso].
  assert (b ≠ image ∧ bo ≠ image ∧ so ≠ image) as (Hbi & Hboi & Hsoi)
    by (repeat split; congruence).
  (* the parts *)
  apply wp_bind.
  eapply (wp_draw_loop image b output_orig a (seqZ 1 23) _ im zeros);
    [by heap_lookup..|done|].
  set (parts := draw_parts a (seqZ 1 23) (im, zeros)).
  intros σ1 Him1 Hb1 Hfr1 Hd1 Hk1. simpl in Hd1, Hk1.
  assert (Hbo1 : heap σ1 !! bo = Some (Bgr zeros)).
  { apply Hfr1; [done..|]. by heap_lookup. }
  assert (Hso1 : heap σ1 !! so = Some (Bgr zeros)).
  { apply Hfr1; [done..|]. by heap_lookup. }
  assert (Hol1 : heap σ1 !! outline = Some (Gray o)).
  { apply Hfr1; [congruence..|]. by heap_lookup. }
  assert (Hkeep1 : ∀ l x, l ≠ image → heap σ !! l = Some x → heap σ1 !! l = Some x).
  { intros l x Hl Hx. apply Hfr1; [done|congruence|]. by heap_lookup. }
  (* blank *)
  apply wp_bind, (wp_write_mask _ _ _ _ _ _ Hb1). intros σ2 Hsub2 Hd2 Hk2.
  (* the colorized image, and its grey version *)
  eapply wp_bind, wp_double_image; [by eapply lookup_weaken|]. intros image2 Himage2.
  eapply wp_bind, wp_imwrite; [by heap_lookup|].
  apply wp_bind, wp_generate_vector.
  eapply wp_bind, wp_load_bgr; [by heap_lookup|].
  apply wp_bind, wp_alloc. intros gray Hgray.
  eapply wp_bind, wp_imwrite; [by heap_lookup|].
  apply wp_bind, wp_generate_vector.
  (* the silhouettes *)
  simpl in Hgray. apply lookup_insert_None in Hgray as [Hgray Hig].
  assert (Hol2 : heap σ2 !! outline = Some (Gray o)) by by eapply lookup_weaken.
  assert (Hbo2 : heap σ2 !! bo = Some (Bgr zeros)) by by eapply lookup_weaken.
  assert (Hso2 : heap σ2 !! so = Some (Bgr zeros)) by by eapply lookup_weaken.
  eapply wp_bind, wp_find_body_part.
  { simpl. rewrite !lookup_insert_ne by congruence. exact Hol2. }
  intros σ3 (Hsub3 & Hd3 & Hk3). simpl in Hsub3, Hd3, Hk3.
  assert (Hbo3 : heap σ3 !! bo = Some (Bgr zeros)).
  { eapply lookup_weaken; [|exact Hsub3]. by rewrite !lookup_insert_ne by congruence. }
  assert (Hso3 : heap σ3 !! so = Some (Bgr zeros)).
  { eapply lookup_weaken; [|exact Hsub3]. by rewrite !lookup_insert_ne by congruence. }
  assert (Hkeep3 : ∀ l x, l ≠ image → heap σ !! l = Some x → heap σ3 !! l = Some x).
  { intros l x Hl Hx. eapply lookup_weaken; [|exact Hsub3].
    assert (heap σ2 !! l = Some x) by (eapply lookup_weaken; [|exact Hsub2]; eauto).
    by rewrite !lookup_insert_ne by congruence. }
  set (σ4 := if bool_decide (0 < length (part_contours o 1))%nat
             then set_heap (insert so (Bgr (drawContours zeros (part_contours o 1) (255, 255, 255) (-1))))
                    (set_heap (insert bo (Bgr (drawContours zeros (part_contours o 1) (255, 255, 255) 2))) σ3)
             else σ3).
  assert (Hbo4 : heap σ4 !! bo = Some (Bgr (silhouette o 2 zeros))).
  { unfold σ4, silhouette. case_bool_decide; [|done]. by heap_lookup. }
  assert (Hso4 : heap σ4 !! so = Some (Bgr (silhouette o (-1) zeros))).
  { unfold σ4, silhouette. case_bool_decide; [|done]. by heap_lookup. }
  assert (Hkeep4 : ∀ l x, l ≠ image → heap σ !! l = Some x → heap σ4 !! l = Some x).
  { intros l x Hl Hx. pose proof (Hkeep3 l x Hl Hx).
    unfold σ4. case_bool_decide; [|done].
    simpl. by rewrite !lookup_insert_ne by congruence. }
  assert (Hd4 : dirs σ4 = dirs σ3) by (unfold σ4; by case_bool_decide).
  assert (Hk4 : disk σ4 = disk σ3) by (unfold σ4; by case_bool_decide).
  apply wp_bind.
  apply (wp_mono _ _ (λ r σ', r = inr () ∧ σ' = σ4)).
  { unfold σ4. case_bool_decide.
    - apply wp_bind, (wp_cv2_drawContours _ _ _ _ _ _ _ Hbo3).
      eapply wp_cv2_drawContours; [by heap_lookup|]. done.
    - by apply wp_ret. }
  intros r σ' [-> ->]. clearbody σ4.
  apply wp_bind, (wp_write_mask _ _ _ _ _ _ Hbo4). intros σ5 Hsub5 Hd5 Hk5.
  eapply wp_write_mask; [by eapply lookup_weaken|]. intros σ6 Hsub6 Hd6 Hk6.
  apply HΦ.
  - intros l x Hl Hx.
    eapply lookup_weaken; [|exact Hsub6]. eapply lookup_weaken; [|exact Hsub5]. eauto.
  - congruence.
  - rewrite Hk6, Hk5, Hk4, Hk3, Hk2, Hk1.
    unfold bitmap_events, bitmap_artifacts. fold zeros. fold parts. simpl.
    rewrite <- !app_assoc. reflexivity.
Qed.

Lemma draw_parts_shape a parts : ∀ st h w,
  has_shape st.1 h w → has_shape st.2 h w →
  has_shape (draw_parts a parts st).1 h w ∧ has_shape (draw_parts a parts st).2 h w.
Proof.
  induction parts as [|i parts IH]; intros st h w H1 H2; [done|].
  unfold draw_parts. simpl. apply IH.
  - unfold draw_part. case_bool_decide; [|done]. by apply drawContours_shape.
  - unfold draw_part. case_bool_decide; [|done]. by apply drawContours_shape.
Qed.

Lemma silhouette_shape o t canvas h w :
  has_shape canvas h w → has_shape (silhouette o t canvas) h w.
Proof.
  intros H. unfold silhouette. case_bool_decide; [|done]. by apply drawContours_shape.
Qed.

Lemma bitmap_artifacts_shape im a o h w :
  has_shape im h w → (0 < h)%nat → (0 < w)%nat →
  Z.of_nat h < 2 ^ 52 → Z.of_nat w < 2 ^ 52 →
  Forall (λ na, ndarray_has_shape na.2 (2 * h) (2 * w)) (bitmap_artifacts im a o).
Proof.
  intros Him Hh Hw Hhb Hwb. unfold bitmap_artifacts. cbv zeta.
  rewrite (has_shape_nrows _ _ _ Him), (has_shape_ncols _ _ _ Him) by done.
  destruct (draw_parts_shape a (seqZ 1 23) (im, np_full h w black) h w)
    as [Hp1 Hp2]; [done|apply np_full_shape|].
  generalize dependent (draw_parts a (seqZ 1 23) (im, np_full h w black)).
  intros parts Hp1 Hp2.
  pose proof (np_full_shape h w black) as Hz.
  repeat apply Forall_cons_2; [..|apply Forall_nil_2]; unfold ndarray_has_shape; cbn [snd].
  - apply doubled_shape; [by apply map2_shape|done..].
  - by apply doubled_shape.
  - by apply map2_shape, doubled_shape.
  - apply doubled_shape; [by apply map2_shape, silhouette_shape|done..].
  - apply doubled_shape; [by apply map2_shape, silhouette_shape|done..].
Qed.

(** C9.  For an image of width w > 0 and height h > 0 (sides of images are
    C [int]s, far below 2^52), [int(dim * 200 / 100)] is exactly [2 * dim]
    for both sides and [double_image] returns a new image of height 2·h
    and width 2·w.  [generate_bitmaps] returns normally and puts on disk
    its five artifacts, in this order and each immediately followed by the
    tracer launched on it; every one of them has height 2·h and
    width 2·w: none is traced before it has been doubled. *)
Theorem C9_artifacts_doubled_before_tracing (σ : world) (prefix : string)
    (image output_orig outline : loc) (im : list (list pixel))
    (a o : list (list Z)) (h w : nat) :
  heap σ !! image = Some (Bgr im) → has_shape im h w →
  (0 < h)%nat → (0 < w)%nat → Z.of_nat h < 2 ^ 52 → Z.of_nat w < 2 ^ 52 →
  heap σ !! output_orig = Some (Gray a) →
  heap σ !! outline = Some (Gray o) →
  int_of_float (int_true_divide (Z.of_nat w * 200) 100) = 2 * Z.of_nat w
  ∧ int_of_float (int_true_divide (Z.of_nat h * 200) 100) = 2 * Z.of_nat h
  ∧ (∃ l σ' out,
       double_image image σ = (inr l, σ')
       ∧ heap σ' !! l = Some (Bgr out)
       ∧ has_shape out (2 * h) (2 * w))
  ∧ (∃ σ' arts,
       generate_bitmaps prefix image output_orig outline σ = (inr (), σ')
       ∧ disk σ' = disk σ ++ concat (map (λ na, artifact_events prefix na.1 na.2) arts)
       ∧ arts.*1 = ["blank"; "image"; "image_bw"; "blank_outline"; "solid_outline"]
       ∧ Forall (λ na, ndarray_has_shape na.2 (2 * h) (2 * w)) arts).
Proof.
  intros Him Hsh Hh Hw Hhb Hwb Hoo Hol.
  split; [apply percent_doubles; lia|]. split; [apply percent_doubles; lia|]. split.
  - destruct (wp_elim (double_image image) σ
      (λ r σ', ∃ l, r = inr l ∧ heap σ' !! l = Some (Bgr (doubled im))))
      as (r & σ' & Hrun & l & -> & Hl).
    { apply (wp_double_image _ _ _ _ Him). intros l _. exists l.
      split; [done|]. apply heap_set_heap_insert. }
    exists l, σ', (doubled im). split; [done|]. split; [done|]. by apply doubled_shape.
  - destruct (wp_elim (generate_bitmaps prefix image output_orig outline) σ
      (λ r σ', r = inr () ∧ disk σ' = disk σ ++ bitmap_events prefix im a o))
      as (r & σ' & Hrun & -> & Hdisk).
    { apply (wp_generate_bitmaps _ _ _ _ _ _ _ _ _ Him Hoo Hol). by intros σ' _ _ Hk. }
    exists σ', (bitmap_artifacts im a o).
    split; [done|]. split; [done|]. split; [done|].
    by apply bitmap_artifacts_shape.
Qed.

(** C10, as amended.  [find_body_part(A, i)] returns the contours of the
    mask [A == i] and leaves [A], like every other array object of its
    caller, as it was: it thresholds a copy.  So in [generate_bitmaps] the
    23 per-part extractions all read the same, unmodified merged label
    array, and the silhouette extraction reads the unmodified union mask
    [outline], a second array: the artifacts are those drawn from the
    contours of these two arrays, and both arrays are unchanged when it
    returns. *)
Theorem C10_find_body_part_keeps_its_argument (σ : world) (prefix : string)
    (body_parts image outline : loc) (i : Z) (a o : list (list Z))
    (im : list (list pixel)) :
  heap σ !! body_parts = Some (Gray a) →
  heap σ !! image = Some (Bgr im) →
  heap σ !! outline = Some (Gray o) →
  (∃ σ', find_body_part body_parts i σ = (inr (part_contours a i), σ')
         ∧ heap σ' !! body_parts = Some (Gray a)
         ∧ heap σ ⊆ heap σ' ∧ disk σ' = disk σ)
  ∧ (∃ σ', generate_bitmaps prefix image body_parts outline σ = (inr (), σ')
           ∧ heap σ' !! body_parts = Some (Gray a)
           ∧ heap σ' !! outline = Some (Gray o)
           ∧ disk σ' = disk σ ++ bitmap_events prefix im a o).
Proof.
  intros Hbp Him Hol. split.
  - destruct (wp_elim (find_body_part body_parts i) σ
      (λ r σ', r = inr (part_contours a i) ∧ extends σ σ'))
      as (r & σ' & Hrun & -> & Hext).
    { by apply (wp_find_body_part _ _ _ _ _ Hbp). }
    exists σ'. split; [done|]. split; [by eapply extends_lookup|].
    by destruct Hext as (? & _ & ?).
  - destruct (wp_elim (generate_bitmaps prefix image body_parts outline) σ
      (λ r σ', r = inr ()
               ∧ (∀ l x, l ≠ image → heap σ !! l = Some x → heap σ' !! l = Some x)
               ∧ disk σ' = disk σ ++ bitmap_events prefix im a o))
      as (r & σ' & Hrun & -> & Hkeep & Hdisk).
    { apply (wp_generate_bitmaps _ _ _ _ _ _ _ _ _ Him Hbp Hol). by intros σ' ? _ ?. }
    exists σ'. split; [done|].
    split; [apply Hkeep; [congruence|done]|].
    split; [apply Hkeep; [congruence|done]|]. done.
Qed.

End Bitmaps.

Lemma C9_artifacts_doubled_before_tracing_witness :
  let σ := World {[ 0%nat := Bgr [[(9, 9, 9); (255, 255, 255)]];
                    1%nat := Gray [[9; 0]]; 2%nat := Gray [[1; 0]] ]} [] [] in
  int_of_float (int_true_divide (Z.of_nat 2 * 200) 100) = 2 * Z.of_nat 2
  ∧ int_of_float (int_true_divide (Z.of_nat 1 * 200) 100) = 2 * Z.of_nat 1
  ∧ (∃ l σ' out,
       double_image (cv := small_cv) 0%nat σ = (inr l, σ')
       ∧ heap σ' !! l = Some (Bgr out)
       ∧ has_shape out (2 * 1) (2 * 2))
  ∧ (∃ σ' arts,
       generate_bitmaps (cv := small_cv) "/results/a_" 0%nat 1%nat 2%nat σ = (inr (), σ')
       ∧ disk σ' = disk σ ++ concat (map (λ na, artifact_events "/results/a_" na.1 na.2) arts)
       ∧ arts.*1 = ["blank"; "image"; "image_bw"; "blank_outline"; "solid_outline"]
       ∧ Forall (λ na, ndarray_has_shape na.2 (2 * 1) (2 * 2)) arts).
Proof.
  apply (C9_artifacts_doubled_before_tracing (cv := small_cv) _ "/results/a_"
           0%nat 1%nat 2%nat [[(9, 9, 9); (255, 255, 255)]] [[9; 0]] [[1; 0]] 1 2).
  - reflexivity.
  - split; [reflexivity|]. by repeat constructor.
  - lia.
  - lia.
  - simpl; lia.
  - simpl; lia.
  - reflexivity.
  - reflexivity.
Defined.

Lemma C10_find_body_part_keeps_its_argument_witness :
  let σ := World {[ 0%nat := Bgr [[(9, 9, 9); (255, 255, 255)]];
                    1%nat := Gray [[9; 0]]; 2%nat := Gray [[1; 0]] ]} [] [] in
  (∃ σ', find_body_part (cv := small_cv) 1%nat 9 σ
         = (inr (part_contours (cv := small_cv) [[9; 0]] 9), σ')
         ∧ heap σ' !! 1%nat = Some (Gray [[9; 0]])
         ∧ heap σ ⊆ heap σ' ∧ disk σ' = disk σ)
  ∧ (∃ σ', generate_bitmaps (cv := small_cv) "/results/a_" 0%nat 1%nat 2%nat σ = (inr (), σ')
           ∧ heap σ' !! 1%nat = Some (Gray [[9; 0]])
           ∧ heap σ' !! 2%nat = Some (Gray [[1; 0]])
           ∧ disk σ' = disk σ ++ bitmap_events (cv := small_cv) "/results/a_"
                                   [[(9, 9, 9); (255, 255, 255)]] [[9; 0]] [[1; 0]]).
Proof.
  apply (C10_find_body_part_keeps_its_argument (cv := small_cv) _ "/results/a_"
           1%nat 0%nat 2%nat 9 [[9; 0]] [[1; 0]] [[(9, 9, 9); (255, 255, 255)]]).
  - reflexivity.
  - reflexivity.
  - reflexivity.
Defined.

(** ** The pipeline of one image *)

Lemma wp_ensure_dir p σ (Φ : exn + unit → world → Prop) :
  (∀ σ', heap σ' = heap σ →
         disk σ' = disk σ ++ (if bool_decide (p ∈ dirs σ) then [] else [Mkdir p]) →
         Φ (inr ()) σ') →
  wp (ensure_dir p) σ Φ.
Proof.
  intros HΦ. unfold wp, ensure_dir. case_bool_decide; simpl.
  - apply HΦ; [done|]. by rewrite app_nil_r.
  - by apply HΦ.
Qed.

Lemma wp_remap_labels I a σ (Φ : exn + unit → world → Prop) :
  heap σ !! I = Some (Gray a) →
  Φ (inr ()) (set_heap (insert I (Gray (map (map SymmetryTable) a))) σ) →
  wp (remap_labels I) σ Φ.
Proof. intros HI H. unfold wp. by rewrite (run_remap_labels _ _ _ HI). Qed.

Lemma wp_label_remapper labels σ (Φ : exn + loc → world → Prop) :
  (∀ I, heap σ !! I = None →
        Φ (inr I) (set_heap (insert I (Gray (merged_labels labels))) σ)) →
  wp (label_remapper labels) σ Φ.
Proof.
  intros HΦ. unfold label_remapper.
  apply wp_bind, wp_alloc. intros I HI.
  eapply wp_bind, wp_remap_labels; [by heap_lookup|].
  apply wp_ret. rewrite set_heap_insert_insert, map2_map2. by apply HΦ.
Qed.

Section Execute.
Context `{cv : OpenCV}.

(** C5, as amended.  When the box (x, y, w, h), with the colorized image of
    shape (h, w), sticks out of the source image on an axis on which it is
    more than one pixel long (x + w beyond the width with w > 1, or y + h
    beyond the height with h > 1), the pipeline of the image raises numpy's
    broadcast error at the compositing assignment.  By then the results
    directory has been made if it was missing and the two label-array dumps
    [output_orig.npy] and [output_outline.npy] have been written; nothing
    else reaches the disk: no raster artifact, no dump of the colorized
    image, no tracer. *)
Theorem C5_box_beyond_image_raises_after_label_dumps (σ : world)
    (entry_idx : Z) (file_stem : string) (entry_image : list (list pixel))
    (labels : list (list Z)) (x y w h : Z) (H W : nat) :
  has_shape entry_image H W → (0 < H)%nat →
  has_shape labels (Z.to_nat h) (Z.to_nat w) →
  0 < w → 0 < h →
  - 2 ^ 31 ≤ x → - 2 ^ 31 ≤ y → x + w < 2 ^ 31 → y + h < 2 ^ 31 →
  (Z.of_nat W < x + w ∧ w ≠ 1) ∨ (Z.of_nat H < y + h ∧ h ≠ 1) →
  ∃ σ',
    execute_on_outputs entry_idx file_stem entry_image labels (x, y, w, h) σ
    = (inl ValueError, σ')
    ∧ disk σ'
      = disk σ
        ++ (if bool_decide ("/content/results" ∈ dirs σ) then []
            else [Mkdir "/content/results"])
        ++ [NpSave "/content/output_orig.npy" (Gray (merged_labels labels));
            NpSave "/content/output_outline.npy"
              (Gray (assign_where (λ v, 0 <? v) 1 (merged_labels labels)))].
Proof.
  intros Himg HH Hlab Hw Hh Hx Hy HxW HyH Hout.
  set (events := (if bool_decide ("/content/results" ∈ dirs σ) then []
                  else [Mkdir "/content/results"])
        ++ [NpSave "/content/output_orig.npy" (Gray (merged_labels labels));
            NpSave "/content/output_outline.npy"
              (Gray (assign_where (λ v, 0 <? v) 1 (merged_labels labels)))]).
  destruct (wp_elim
    (execute_on_outputs entry_idx file_stem entry_image labels (x, y, w, h)) σ
    (λ r σ', r = inl ValueError ∧ disk σ' = disk σ ++ events))
    as (r & σ' & Hrun & -> & Hdisk); [|by exists σ'].
  unfold execute_on_outputs.
  apply wp_bind, wp_ensure_dir. intros σ0 Hheap0 Hdisk0.
  apply wp_bind, wp_alloc. intros l1 Hl1.
  eapply wp_bind, wp_load_gray; [by heap_lookup|].
  apply wp_bind, wp_alloc. intros l2 Hl2.
  eapply wp_bind, wp_load_gray; [by heap_lookup|].
  apply wp_bind, wp_alloc. intros image Himage.
  assert (Hsh : has_shape (map (map (λ v : Z, (v, v, v)))
                  (np_full (nrows (map (map bgr2gray) entry_image))
                           (ncols (map (map bgr2gray) entry_image)) 0)) H W).
  { apply map2_shape.
    rewrite (has_shape_nrows _ H W), (has_shape_ncols _ H W)
      by (done || by apply map2_shape).
    apply np_full_shape. }
  set (im := map (map (λ v : Z, (v, v, v))) _) in *. clearbody im.
  apply wp_bind, wp_label_remapper. intros I HI.
  eapply wp_bind, wp_np_copy; [by heap_lookup|]. intros output_orig Hoo.
  eapply wp_bind, wp_np_save; [by heap_lookup|].
  eapply wp_bind, wp_np_copy; [by heap_lookup|]. intros outline Hol.
  eapply wp_bind, wp_setitem_where; [by heap_lookup|].
  eapply wp_bind, wp_np_save; [by heap_lookup|].
  simpl in HI, Hoo, Hol.
  repeat match goal with
         | H : <[_:=_]> _ !! _ = None |- _ => apply lookup_insert_None in H as [H ?]
         end.
  eapply wp_bind, wp_colorize; [by heap_lookup|].
  intros I' σ1 Hext _ HI'.
  apply wp_bind.
  eapply (wp_composite_beyond image I' im _ x y w h H W); try done.
  - eapply extends_lookup; [exact Hext|]. by heap_lookup.
  - by apply map2_shape, map2_shape.
  - intros σ2 Hd2 Hk2. split; [done|].
    destruct Hext as (_ & _ & Hk1). rewrite Hk2, Hk1. simpl.
    rewrite Hdisk0. unfold events. by rewrite <- !app_assoc.
Qed.

End Execute.

Lemma C5_box_beyond_image_raises_after_label_dumps_witness :
  let σ := World ∅ [] [] in
  let labels := [[0; 1]; [9; 24]] in
  ∃ σ',
    execute_on_outputs (cv := small_cv) 0 "a" (np_full 2 2 (10, 20, 30)) labels
      (1, 0, 2, 2) σ
    = (inl ValueError, σ')
    ∧ disk σ'
      = disk σ
        ++ (if bool_decide ("/content/results" ∈ dirs σ) then []
            else [Mkdir "/content/results"])
        ++ [NpSave "/content/output_orig.npy" (Gray (merged_labels labels));
            NpSave "/content/output_outline.npy"
              (Gray (assign_where (λ v, 0 <? v) 1 (merged_labels labels)))].
Proof.
  apply (C5_box_beyond_image_raises_after_label_dumps (cv := small_cv) _ 0 "a"
           (np_full 2 2 (10, 20, 30)) [[0; 1]; [9; 24]] 1 0 2 2 2 2).
  - apply np_full_shape.
  - lia.
  - split; [reflexivity|]. by repeat constructor.
  - lia.
  - lia.
  - lia.
  - lia.
  - lia.
  - lia.
  - left. simpl. lia.
Defined.

(** C5 as stated fails, twice.  A 2×2 box at (1, 1) on a 2×2 image sticks
    out: the pipeline raises, but after it has written the two label-array
    dumps.  A 1×1 box at (5, 5) on the same image sticks out as well: the
    slice is empty, the pixel broadcasts into it, nothing is raised and all
    the artifacts are written. *)
Lemma C5_counterexample :
  let run := execute_on_outputs (cv := small_cv) 0 "a" (np_full 2 2 (10, 20, 30)) in
  let r1 := run [[0; 1]; [9; 24]] (1, 1, 2, 2) (World ∅ [] []) in
  let r2 := run [[9]] (5, 5, 1, 1) (World ∅ [] []) in
  (1 + 2 > 2
   ∧ r1.1 = inl ValueError
   ∧ disk r1.2 = [Mkdir "/content/results";
                  NpSave "/content/output_orig.npy" (Gray [[0; 1]; [9; 23]]);
                  NpSave "/content/output_outline.npy" (Gray [[0; 1]; [1; 1]])])
  ∧ (5 + 1 > 2
     ∧ r2.1 = inr 1
     ∧ disk r2.2 !! 4%nat
       = Some (ImWrite "/content/results/mytest.jpg" (Bgr (np_full 2 2 white)))
     ∧ length (disk r2.2) = 15%nat).
Proof.
  split.
  - split; [lia|]. split; by vm_compute.
  - split; [lia|]. split; [by vm_compute|]. split; by vm_compute.
Qed.

(** C10 as stated fails in its last clause: the silhouette extraction does
    not read the merged label array.  On the label array [[9]] the merged
    label array written to [output_orig.npy] is [[9]]; the outline artifact
    on disk is the one drawn from the contours of value 1 in the union mask
    [[1]], and the contours of value 1 in the merged label array would have
    given another image. *)
Lemma C10_counterexample :
  let r := execute_on_outputs (cv := small_cv) 0 "a" [[(10, 20, 30)]] [[9]]
             (0, 0, 1, 1) (World ∅ [] []) in
  r.1 = inr 1
  ∧ disk r.2 !! 1%nat = Some (NpSave "/content/output_orig.npy" (Gray [[9]]))
  ∧ disk r.2 !! 2%nat = Some (NpSave "/content/output_outline.npy" (Gray [[1]]))
  ∧ disk r.2 !! 11%nat
    = Some (ImWrite "/content//results/a_blank_outline.bmp"
              (Bgr (doubled (cv := small_cv)
                      (bitwise_not (silhouette (cv := small_cv) [[1]] 2 [[black]])))))
  ∧ silhouette (cv := small_cv) [[1]] 2 [[black]]
    ≠ silhouette (cv := small_cv) [[9]] 2 [[black]].
Proof.
  split; [by vm_compute|]. split; [by vm_compute|]. split; [by vm_compute|].
  split; [by vm_compute|]. intros H. vm_compute in H. discriminate H.
Qed.

(** * The rest of the pipeline *)

(** ** Shapes once more *)

Lemma nrows_map2 {A B} (f : A → B) (a : list (list A)) :
  nrows (map (map f) a) = nrows a.
Proof. unfold nrows. apply length_map. Qed.

Lemma ncols_map2 {A B} (f : A → B) (a : list (list A)) :
  ncols (map (map f) a) = ncols a.
Proof. destruct a as [|r a]; [done|]. simpl. apply length_map. Qed.

Lemma nrows_np_full {A} h w (v : A) : nrows (np_full h w v) = h.
Proof. apply length_replicate. Qed.

Lemma ncols_np_full {A} h w (v : A) :
  ncols (np_full h w v) = if bool_decide (h = 0%nat) then 0%nat else w.
Proof. destruct h; [done|]. simpl. apply length_replicate. Qed.

(** The black image of line 370 has the sides of the source image. *)
Lemma tiled_zeros_shape {A B C} (f : A → B) (g : Z → C) (a : list (list A)) :
  let im := map (map g) (np_full (nrows (map (map f) a)) (ncols (map (map f) a)) 0) in
  nrows im = nrows a ∧ ncols im = ncols a.
Proof.
  simpl. rewrite !nrows_map2, !ncols_map2, nrows_np_full, ncols_np_full.
  split; [done|]. case_bool_decide as E; [|done].
  by destruct a.
Qed.

(** ** The Canvas Compositor on every box *)

(** Whether the colorized image [c] can be assigned to the slice
    [y:y+h, x:x+w] of a canvas of [H] rows and [W] columns, as numpy
    decides it, and the canvas after the assignment. *)
Lemma wp_composite image I im c x y w h σ (Φ : exn + loc → world → Prop) :
  heap σ !! image = Some (Bgr im) →
  heap σ !! I = Some (Bgr c) →
  let canvas0 := np_full (nrows im) (ncols im) white in
  let rows := slice_indices y (i32_add y h) (nrows canvas0) in
  let cols := slice_indices x (i32_add x w) (ncols canvas0) in
  (if broadcastable (nrows c) rows.2 && broadcastable (ncols c) cols.2
   then ∀ canvas, heap σ !! canvas = None →
          Φ (inr canvas)
            (set_heap (insert canvas (Bgr (paste rows.1 rows.2 cols.1 cols.2 c canvas0))) σ)
   else ∀ σ', heap σ ⊆ heap σ' → dirs σ' = dirs σ → disk σ' = disk σ →
          Φ (inl ValueError) σ') →
  wp (composite image (x, y, w, h) I) σ Φ.
Proof.
  intros Him HI. cbv zeta. intros HΦ. unfold composite.
  apply wp_bind, (wp_load_bgr _ _ _ _ Him).
  apply wp_bind, wp_alloc. intros canvas Hcanvas.
  apply wp_bind. unfold setitem_slice2.
  eapply wp_bind, wp_load_bgr; [by heap_lookup|].
  assert (canvas ≠ I) by congruence.
  eapply wp_bind, wp_load_bgr; [by heap_lookup|].
  change (255, 255, 255) with white. revert HΦ.
  destruct (slice_indices y (i32_add y h) _) as [r0 th].
  destruct (slice_indices x (i32_add x w) _) as [c0 tw]. simpl.
  destruct (broadcastable (nrows c) th && broadcastable (ncols c) tw); intros HΦ.
  - apply wp_store, wp_ret. rewrite set_heap_insert_insert. by apply HΦ.
  - apply wp_raise. apply HΦ; [|done..]. simpl. by apply insert_subseteq.
Qed.

(** ** The pipeline of one image, on every input *)

Section ExecuteTotal.
Context `{cv : OpenCV}.

Lemma wp_execute_on_outputs σ entry_idx file_stem entry_image labels bbox
    (Φ : exn + Z → world → Prop) :
  (∀ σ', heap σ ⊆ heap σ' →
         disk σ' = disk σ
                   ++ (if bool_decide ("/content/results" ∈ dirs σ) then []
                       else [Mkdir "/content/results"])
                   ++ label_dumps labels
                   ++ (if box_accepted entry_image labels bbox
                       then image_events file_stem entry_image labels bbox else []) →
         Φ (if box_accepted entry_image labels bbox
            then inr (entry_idx + 1) else inl ValueError) σ') →
  wp (execute_on_outputs entry_idx file_stem entry_image labels bbox) σ Φ.
Proof.
  intros HΦ. destruct bbox as [[[x y] w] h]. unfold execute_on_outputs.
  apply wp_bind, wp_ensure_dir. intros σ0 Hheap0 Hdisk0.
  apply wp_bind, wp_alloc. intros l1 Hl1.
  eapply wp_bind, wp_load_gray; [by heap_lookup|].
  apply wp_bind, wp_alloc. intros l2 Hl2.
  eapply wp_bind, wp_load_gray; [by heap_lookup|].
  apply wp_bind, wp_alloc. intros image Himage.
  destruct (tiled_zeros_shape bgr2gray (λ v : Z, (v, v, v)) entry_image) as [HnH HnW].
  set (im := map (map (λ v : Z, (v, v, v))) _) in *. clearbody im.
  apply wp_bind, wp_label_remapper. intros I HI.
  eapply wp_bind, wp_np_copy; [by heap_lookup|]. intros output_orig Hoo.
  eapply wp_bind, wp_np_save; [by heap_lookup|].
  eapply wp_bind, wp_np_copy; [by heap_lookup|]. intros outline Hol.
  eapply wp_bind, wp_setitem_where; [by heap_lookup|].
  eapply wp_bind, wp_np_save; [by heap_lookup|].
  simpl in Hl1, Hl2, Himage, HI, Hoo, Hol.
  repeat match goal with
         | H : <[_:=_]> _ !! _ = None |- _ => apply lookup_insert_None in H as [H ?]
         end.
  fold (union_mask labels).
  set (σa := World _ _ _).
  assert (Hσa : heap σ ⊆ heap σa).
  { unfold σa. simpl. rewrite insert_insert_eq.
    repeat (apply insert_subseteq_r; [congruence|]). by rewrite Hheap0. }
  assert (Hda : disk σa = disk σ
                ++ (if bool_decide ("/content/results" ∈ dirs σ) then []
                    else [Mkdir "/content/results"]) ++ label_dumps labels).
  { unfold σa, label_dumps. simpl. rewrite Hdisk0. by rewrite <- !app_assoc. }
  assert (Himg_a : heap σa !! image = Some (Bgr im)) by (unfold σa; by heap_lookup).
  assert (HI_a : heap σa !! I = Some (Gray (merged_labels labels)))
    by (unfold σa; by heap_lookup).
  assert (Hoo_a : heap σa !! output_orig = Some (Gray (merged_labels labels)))
    by (unfold σa; by heap_lookup).
  assert (Hol_a : heap σa !! outline = Some (Gray (union_mask labels)))
    by (unfold σa; by heap_lookup).
  clearbody σa.
  apply wp_bind, (wp_colorize _ _ _ _ HI_a). intros I' σ1 Hext HI'fresh HI'.
  fold (colorized_labels labels) in HI'.
  pose proof (extends_lookup _ _ _ _ Hext Himg_a) as Himg1.
  pose proof (extends_lookup _ _ _ _ Hext Hoo_a) as Hoo1.
  pose proof (extends_lookup _ _ _ _ Hext Hol_a) as Hol1.
  destruct Hext as (Hsub1 & Hd1 & Hk1).
  apply wp_bind, (wp_composite _ _ _ _ _ _ _ _ _ _ Himg1 HI').
  revert HΦ. unfold box_accepted, image_events, composited, box_rows, box_cols.
  cbv zeta.
  rewrite nrows_np_full, ncols_np_full.
  change (@nrows pixel im = nrows entry_image) in HnH.
  change (@ncols pixel im = ncols entry_image) in HnW.
  rewrite HnH, HnW.
  assert (Hnr : nrows (colorized_labels labels) = nrows labels)
    by (unfold colorized_labels, merged_labels; by rewrite !nrows_map2).
  assert (Hnc : ncols (colorized_labels labels) = ncols labels)
    by (unfold colorized_labels, merged_labels; by rewrite !ncols_map2).
  rewrite Hnr, Hnc.
  replace (if bool_decide (nrows entry_image = 0%nat) then 0%nat else ncols entry_image)
    with (ncols entry_image) by (destruct entry_image; done).
  destruct (broadcastable (nrows labels) _ && broadcastable (ncols labels) _); intros HΦ.
  - intros canvas Hcanvas.
    eapply wp_bind, wp_np_save; [by heap_lookup|].
    eapply wp_bind, wp_imwrite; [by heap_lookup|].
    eapply wp_bind, wp_generate_bitmaps.
    { simpl. rewrite lookup_insert_ne by congruence. exact HI'. }
    { simpl. rewrite lookup_insert_ne by congruence. exact Hoo1. }
    { simpl. rewrite lookup_insert_ne by congruence. exact Hol1. }
    intros σ2 Hkeep2 Hd2 Hk2. apply wp_ret. apply HΦ.
    + apply map_subseteq_spec. intros l v Hl.
      assert (heap σ1 !! l = Some v) as Hl1'
        by (eapply lookup_weaken; [|exact Hsub1]; by eapply lookup_weaken).
      apply Hkeep2.
      * intros ->. eapply lookup_weaken in Hl; [|exact Hσa]. congruence.
      * simpl. rewrite lookup_insert_ne by congruence. done.
    + rewrite Hk2. simpl. rewrite Hk1, Hda. rewrite <- !app_assoc. reflexivity.
  - intros σ2 Hsub2 Hd2 Hk2. apply HΦ.
    + etrans; [exact Hσa|]. etrans; [exact Hsub1|]. done.
    + rewrite Hk2, Hk1, Hda. by rewrite app_nil_r, <- ?app_assoc.
Qed.

End ExecuteTotal.

Section PipelineFacts.
Context `{cv : OpenCV}.

(** X1.  On every input the pipeline of one image ends in one of two ways,
    decided by numpy's broadcast test on the clipped slice: either it
    returns [entry_idx + 1], or it raises [ValueError]; it never stops on
    an ill-typed array object.  In both cases the array objects of the
    caller are untouched and the disk receives, in this order, the results
    directory if it was missing and the two label dumps; in the first case
    only, these are followed by the dump of the colorized image (before any
    contour is drawn on it), [mytest.jpg] and the five traced artifacts. *)
Theorem X1_execute_on_outputs_outcome (σ : world) (entry_idx : Z)
    (file_stem : string) (entry_image : list (list pixel))
    (labels : list (list Z)) (bbox : Z * Z * Z * Z) :
  ∃ σ',
    execute_on_outputs entry_idx file_stem entry_image labels bbox σ
    = (if box_accepted entry_image labels bbox
       then inr (entry_idx + 1) else inl ValueError, σ')
    ∧ heap σ ⊆ heap σ'
    ∧ disk σ'
      = disk σ
        ++ (if bool_decide ("/content/results" ∈ dirs σ) then []
            else [Mkdir "/content/results"])
        ++ label_dumps labels
        ++ (if box_accepted entry_image labels bbox
            then image_events file_stem entry_image labels bbox else []).
Proof.
  destruct (wp_elim
    (execute_on_outputs entry_idx file_stem entry_image labels bbox) σ
    (λ r σ', r = (if box_accepted entry_image labels bbox
                  then inr (entry_idx + 1) else inl ValueError)
             ∧ heap σ ⊆ heap σ'
             ∧ disk σ' = disk σ
                 ++ (if bool_decide ("/content/results" ∈ dirs σ) then []
                     else [Mkdir "/content/results"])
                 ++ label_dumps labels
                 ++ (if box_accepted entry_image labels bbox
                     then image_events file_stem entry_image labels bbox else [])))
    as (r & σ' & Hrun & -> & Hsub & Hdisk).
  { apply wp_execute_on_outputs. by intros σ' ? ?. }
  by exists σ'.
Qed.

(** A box inside the source image, with labels of the shape of the box, is
    accepted, and the slice is the box. *)
Lemma box_inside_accepted entry_image labels x y w h H W :
  has_shape entry_image H W →
  has_shape labels (Z.to_nat h) (Z.to_nat w) →
  0 ≤ x → 0 ≤ y → 0 < w → 0 < h →
  x + w ≤ Z.of_nat W → y + h ≤ Z.of_nat H →
  Z.of_nat W < 2 ^ 31 → Z.of_nat H < 2 ^ 31 →
  box_rows entry_image (x, y, w, h) = (Z.to_nat y, Z.to_nat h)
  ∧ box_cols entry_image (x, y, w, h) = (Z.to_nat x, Z.to_nat w)
  ∧ box_accepted entry_image labels (x, y, w, h) = true.
Proof.
  intros Himg Hlab Hx Hy Hw Hh HxW HyH HW HH.
  assert (Hr : box_rows entry_image (x, y, w, h) = (Z.to_nat y, Z.to_nat h)).
  { unfold box_rows, i32_add. rewrite wrap32_id by lia.
    rewrite (has_shape_nrows _ _ _ Himg), slice_indices_inside by lia.
    do 2 f_equal. lia. }
  assert (Hc : box_cols entry_image (x, y, w, h) = (Z.to_nat x, Z.to_nat w)).
  { unfold box_cols, i32_add. rewrite wrap32_id by lia.
    rewrite (has_shape_ncols _ _ _ Himg), slice_indices_inside by lia.
    do 2 f_equal. lia. }
  split; [done|]. split; [done|].
  unfold box_accepted. rewrite Hr, Hc. simpl.
  rewrite (has_shape_nrows _ _ _ Hlab), (has_shape_ncols _ _ _ Hlab) by lia.
  unfold broadcastable.
  rewrite (bool_decide_eq_true_2 (Z.to_nat h = Z.to_nat h)) by done.
  by rewrite (bool_decide_eq_true_2 (Z.to_nat w = Z.to_nat w)) by done.
Qed.

(** X2.  For a box inside the source image and labels of the shape of the
    box, the pipeline returns [entry_idx + 1], and [mytest.jpg] is the
    white canvas of the sides of the source image with the colorized labels
    pasted at the box. *)
Theorem X2_box_inside_succeeds (σ : world) (entry_idx : Z)
    (file_stem : string) (entry_image : list (list pixel))
    (labels : list (list Z)) (x y w h : Z) (H W : nat) :
  has_shape entry_image H W →
  has_shape labels (Z.to_nat h) (Z.to_nat w) →
  0 ≤ x → 0 ≤ y → 0 < w → 0 < h →
  x + w ≤ Z.of_nat W → y + h ≤ Z.of_nat H →
  Z.of_nat W < 2 ^ 31 → Z.of_nat H < 2 ^ 31 →
  ∃ σ',
    execute_on_outputs entry_idx file_stem entry_image labels (x, y, w, h) σ
    = (inr (entry_idx + 1), σ')
    ∧ disk σ'
      = disk σ
        ++ (if bool_decide ("/content/results" ∈ dirs σ) then []
            else [Mkdir "/content/results"])
        ++ label_dumps labels
        ++ image_events file_stem entry_image labels (x, y, w, h)
    ∧ composited entry_image labels (x, y, w, h)
      = paste (Z.to_nat y) (Z.to_nat h) (Z.to_nat x) (Z.to_nat w)
          (colorized_labels labels) (np_full H W white).
Proof.
  intros Himg Hlab Hx Hy Hw Hh HxW HyH HW HH.
  destruct (box_inside_accepted entry_image labels x y w h H W) as (Hr & Hc & Hacc);
    try done.
  destruct (wp_elim
    (execute_on_outputs entry_idx file_stem entry_image labels (x, y, w, h)) σ
    (λ r σ', r = inr (entry_idx + 1)
             ∧ disk σ' = disk σ
                 ++ (if bool_decide ("/content/results" ∈ dirs σ) then []
                     else [Mkdir "/content/results"])
                 ++ label_dumps labels
                 ++ image_events file_stem entry_image labels (x, y, w, h)))
    as (r & σ' & Hrun & -> & Hdisk).
  { apply wp_execute_on_outputs. rewrite Hacc. by intros σ' ? ?. }
  exists σ'. split; [done|]. split; [done|].
  unfold composited. rewrite Hr, Hc. simpl.
  by rewrite (has_shape_nrows _ _ _ Himg), (has_shape_ncols _ _ _ Himg) by lia.
Qed.

End PipelineFacts.

Lemma X2_box_inside_succeeds_witness :
  let σ := World ∅ [] [] in
  let entry_image := np_full 2 2 (10, 20, 30) in
  let labels := [[0; 1]; [9; 24]] in
  ∃ σ',
    execute_on_outputs (cv := small_cv) 0 "a" entry_image labels (0, 0, 2, 2) σ
    = (inr (0 + 1), σ')
    ∧ disk σ'
      = disk σ
        ++ (if bool_decide ("/content/results" ∈ dirs σ) then []
            else [Mkdir "/content/results"])
        ++ label_dumps labels
        ++ image_events (cv := small_cv) "a" entry_image labels (0, 0, 2, 2)
    ∧ composited (cv := small_cv) entry_image labels (0, 0, 2, 2)
      = paste (Z.to_nat 0) (Z.to_nat 2) (Z.to_nat 0) (Z.to_nat 2)
          (colorized_labels (cv := small_cv) labels) (np_full 2 2 white).
Proof.
  apply (X2_box_inside_succeeds (cv := small_cv) (World ∅ [] []) 0 "a"
           (np_full 2 2 (10, 20, 30)) [[0; 1]; [9; 24]] 0 0 2 2 2 2).
  - apply np_full_shape.
  - split; [reflexivity|]. by repeat constructor.
  - lia.
  - lia.
  - lia.
  - lia.
  - lia.
  - lia.
  - lia.
  - lia.
Defined.

(** ** Labels, masks and intensities *)

Lemma SymmetryTable_byte v : 0 ≤ v ≤ 255 → 0 ≤ SymmetryTable v ≤ 255.
Proof.
  intros Hv. unfold SymmetryTable. repeat (case_eqb; [lia|]). lia.
Qed.

Lemma SymmetryTable_zero v : SymmetryTable v = 0 ↔ v = 0.
Proof.
  unfold SymmetryTable. repeat (case_eqb; [lia|]). lia.
Qed.

Lemma px_assign_where {A} (mask : A → bool) v (a : list (list A)) i j :
  px (assign_where mask v a) i j = (λ x, if mask x then v else x) <$> px a i j.
Proof. apply px_map2. Qed.

Lemma merged_labels_byte labels :
  Forall (Forall (λ v, 0 ≤ v ≤ 255)) (merged_labels labels).
Proof.
  apply px_Forall. intros i j v. unfold merged_labels. rewrite px_map2.
  destruct (px labels i j) as [u|]; [|done]. intros [= <-].
  apply SymmetryTable_byte. pose proof (Z.mod_pos_bound u 256). lia.
Qed.

Lemma px_union_mask labels i j :
  px (union_mask labels) i j
  = (λ v, if v =? 0 then 0 else 1) <$> px (merged_labels labels) i j.
Proof.
  unfold union_mask. rewrite px_assign_where.
  destruct (px (merged_labels labels) i j) as [v|] eqn:Hv; [|done]. simpl.
  pose proof (proj1 (px_Forall _ _) (merged_labels_byte labels) i j v Hv) as Hb.
  simpl in Hb. f_equal.
  destruct (Z.ltb_spec 0 v), (Z.eqb_spec v 0); lia.
Qed.

Lemma threshold_value v k :
  (λ x, if x =? k then 255 else x) ((λ x, if negb (x =? k) then 0 else x) v)
  = if (v =? k) || (k =? 0) then 255 else 0.
Proof.
  cbn beta. destruct (Z.eqb_spec v k) as [->|Hvk]; cbn [negb orb].
  - by rewrite Z.eqb_refl.
  - destruct (Z.eqb_spec 0 k), (Z.eqb_spec k 0); done || lia.
Qed.

(** The mask of [find_body_part], pixel by pixel. *)
Lemma px_threshold a k i j :
  px (threshold a k) i j
  = (λ v, if (v =? k) || (k =? 0) then 255 else 0) <$> px a i j.
Proof.
  unfold threshold. rewrite !px_assign_where.
  destruct (px a i j) as [v|]; [|done]. cbn [fmap option_fmap option_map].
  f_equal. apply threshold_value.
Qed.

Lemma threshold_map a k :
  threshold a k = map (map (λ v, if (v =? k) || (k =? 0) then 255 else 0)) a.
Proof.
  unfold threshold, assign_where. rewrite map2_map2.
  apply map_ext. intros r. apply map_ext. intros v. apply threshold_value.
Qed.

Section MaskFacts.
Context `{cv : OpenCV}.

(** X3.  Whatever the input, the array dumped to [output_outline.npy] is
    the binary mask of the array dumped to [output_orig.npy] just before
    it: 0 where the merged label is 0 and 1 everywhere else; the merged
    labels are [uint8] values. *)
Theorem X3_outline_dump_is_the_binary_mask (σ : world) (entry_idx : Z)
    (file_stem : string) (entry_image : list (list pixel))
    (labels : list (list Z)) (bbox : Z * Z * Z * Z) :
  ∃ r σ' before after a o,
    execute_on_outputs entry_idx file_stem entry_image labels bbox σ = (r, σ')
    ∧ disk σ' = before
                ++ [NpSave "/content/output_orig.npy" (Gray a);
                    NpSave "/content/output_outline.npy" (Gray o)]
                ++ after
    ∧ Forall (Forall (λ v, 0 ≤ v ≤ 255)) a
    ∧ ∀ i j, px o i j = (λ v, if v =? 0 then 0 else 1) <$> px a i j.
Proof.
  destruct (wp_elim
    (execute_on_outputs entry_idx file_stem entry_image labels bbox) σ
    (λ r σ', disk σ' = disk σ
                 ++ (if bool_decide ("/content/results" ∈ dirs σ) then []
                     else [Mkdir "/content/results"])
                 ++ label_dumps labels
                 ++ (if box_accepted entry_image labels bbox
                     then image_events file_stem entry_image labels bbox else [])))
    as (r & σ' & Hrun & Hdisk).
  { apply wp_execute_on_outputs. by intros σ' ? ?. }
  exists r, σ',
    (disk σ ++ (if bool_decide ("/content/results" ∈ dirs σ) then []
                else [Mkdir "/content/results"])),
    (if box_accepted entry_image labels bbox
     then image_events file_stem entry_image labels bbox else []),
    (merged_labels labels), (union_mask labels).
  split; [done|]. split; [by rewrite Hdisk, <- !app_assoc|].
  split; [apply merged_labels_byte|]. apply px_union_mask.
Qed.

(** X4.  [find_body_part(A, i)] hands to [cv2.findContours] the mask that
    is 255 where [A] holds [i] and 0 elsewhere, for every [i] but 0; for
    [i = 0] the two assignments leave 255 everywhere, not the mask of the
    background. *)
Theorem X4_find_body_part_mask (σ : world) (body_parts : loc) (i : Z)
    (a : list (list Z)) :
  heap σ !! body_parts = Some (Gray a) →
  ∃ σ',
    find_body_part body_parts i σ
    = (inr (findContours
              (map (map (λ v, if i =? 0 then 255 else if v =? i then 255 else 0)) a)).1,
       σ').
Proof.
  intros Hbp.
  destruct (wp_elim (find_body_part body_parts i) σ
    (λ r σ', r = inr (part_contours a i))) as (r & σ' & Hrun & ->).
  { apply (wp_find_body_part _ _ _ _ _ Hbp). by intros σ' _. }
  exists σ'. rewrite Hrun. do 3 f_equal.
  unfold part_contours. rewrite threshold_map. do 2 f_equal.
  apply map_ext. intros r. apply map_ext. intros v.
  destruct (Z.eqb_spec i 0), (Z.eqb_spec v i); done.
Qed.

End MaskFacts.

Lemma X4_find_body_part_mask_witness :
  ∃ σ',
    find_body_part (cv := small_cv) 0%nat 0 (World {[ 0%nat := Gray [[0; 9]] ]} [] [])
    = (inr (findContours (OpenCV := small_cv)
              (map (map (λ v, if 0 =? 0 then 255 else if v =? 0 then 255 else 0))
                 [[0; 9]])).1,
       σ').
Proof.
  apply (X4_find_body_part_mask (cv := small_cv) _ 0%nat 0 [[0; 9]]). reflexivity.
Defined.

(** X5.  On raw labels 0..24 the per-part masks of the loop of
    [generate_bitmaps] split the union mask: a pixel is set in the mask of
    part [k] exactly when its merged label is [k], so it is set in at most
    one of the 23 masks, and it is set in one of them exactly when the
    union mask holds 1 there. *)
Theorem X5_part_masks_split_the_union_mask (labels : list (list Z))
    (i j : nat) (v : Z) :
  Forall (Forall (λ u, 0 ≤ u ≤ 24)) labels →
  px (merged_labels labels) i j = Some v →
  (∀ k, k ∈ seqZ 1 23 →
        px (threshold (merged_labels labels) k) i j
        = Some (if v =? k then 255 else 0))
  ∧ (px (union_mask labels) i j = Some 1
     ↔ ∃ k, k ∈ seqZ 1 23 ∧ px (threshold (merged_labels labels) k) i j = Some 255)
  ∧ (px (union_mask labels) i j = Some 0 ↔ v = 0).
Proof.
  intros Hraw Hv.
  assert (Hrange : 0 ≤ v ≤ 23).
  { unfold merged_labels in Hv. rewrite px_map2 in Hv.
    destruct (px labels i j) as [u|] eqn:Hu; [|done]. injection Hv as <-.
    pose proof (proj1 (px_Forall _ _) Hraw i j u Hu) as Hb. simpl in Hb.
    rewrite Z.mod_small by lia. by apply SymmetryTable_range. }
  assert (Hmask : ∀ k, k ∈ seqZ 1 23 →
            px (threshold (merged_labels labels) k) i j
            = Some (if v =? k then 255 else 0)).
  { intros k Hk. apply elem_of_seqZ in Hk.
    rewrite px_threshold, Hv. simpl. f_equal.
    destruct (Z.eqb_spec k 0); [lia|]. by rewrite orb_false_r. }
  split; [done|]. rewrite px_union_mask, Hv. simpl. split.
  - split.
    + intros [= Hone]. destruct (Z.eqb_spec v 0); [done|].
      exists v. split; [apply elem_of_seqZ; lia|].
      rewrite Hmask by (apply elem_of_seqZ; lia). by rewrite Z.eqb_refl.
    + intros (k & Hk & Hset). rewrite (Hmask k Hk) in Hset.
      apply elem_of_seqZ in Hk.
      destruct (Z.eqb_spec v k); [|done].
      destruct (Z.eqb_spec v 0); [lia|done].
  - destruct (Z.eqb_spec v 0); split; (done || lia || by intros [=]).
Qed.

Lemma X5_part_masks_split_the_union_mask_witness :
  (∀ k, k ∈ seqZ 1 23 →
        px (threshold (merged_labels [[0; 7]]) k) 0 1
        = Some (if 9 =? k then 255 else 0))
  ∧ (px (union_mask [[0; 7]]) 0 1 = Some 1
     ↔ ∃ k, k ∈ seqZ 1 23 ∧ px (threshold (merged_labels [[0; 7]]) k) 0 1 = Some 255)
  ∧ (px (union_mask [[0; 7]]) 0 1 = Some 0 ↔ 9 = 0).
Proof.
  apply (X5_part_masks_split_the_union_mask [[0; 7]] 0 1 9).
  - repeat constructor; lia.
  - reflexivity.
Defined.

(** X6.  Lines 418-419 on labels 0..24: the intensity of label [v] is the
    integer part of 10.625·v, it fits [uint8] without wrapping (24 gives
    255), and it grows strictly with the label, so two different labels
    never get the same intensity. *)
Theorem X6_scale_intensity_strictly_increasing (u v : Z) :
  0 ≤ u → u < v → v ≤ 24 →
  scale_intensity v = v * 85 / 8
  ∧ scale_intensity u < scale_intensity v ≤ 255.
Proof.
  intros Hu Huv Hv. unfold scale_intensity, astype_uint8.
  assert (0 ≤ u * 85 / 8 ∧ u * 85 / 8 < v * 85 / 8 ∧ v * 85 / 8 ≤ 255)
    as (H1 & H2 & H3) by (Z.to_euclidean_division_equations; lia).
  rewrite !Z.mod_small by lia. lia.
Qed.

Lemma X6_scale_intensity_strictly_increasing_witness :
  scale_intensity 24 = 24 * 85 / 8
  ∧ scale_intensity 23 < scale_intensity 24 ≤ 255.
Proof.
  apply (X6_scale_intensity_strictly_increasing 23 24); lia.
Defined.

(** ** Images without parts *)

Lemma threshold_absent a k :
  k ≠ 0 → Forall (Forall (λ v, v ≠ k)) a →
  Forall (Forall (λ v, v = 0)) (threshold a k).
Proof.
  intros Hk Ha. rewrite threshold_map. eapply map2_Forall; [|exact Ha].
  intros v Hv. simpl.
  destruct (Z.eqb_spec v k), (Z.eqb_spec k 0); done.
Qed.

Lemma map_replicate {A B} (f : A → B) n x :
  map f (replicate n x) = replicate n (f x).
Proof. induction n as [|n IH]; [done|]. simpl. by rewrite IH. Qed.

Lemma bitwise_not_black h w :
  bitwise_not (np_full h w black) = np_full h w white.
Proof. unfold bitwise_not, np_full. by rewrite !map_replicate. Qed.

Lemma concat_imap_nil {A B} (f : nat → A → list B) (l : list A) :
  (∀ i x, x ∈ l → f i x = []) → concat (imap f l) = [].
Proof.
  revert f. induction l as [|x l IH]; intros f Hf; [done|].
  simpl. rewrite (Hf 0%nat x) by by left. simpl.
  apply IH. intros i y Hy. apply Hf. by right.
Qed.

Lemma point_contours_of_zeros m :
  Forall (Forall (λ v, v = 0)) m → (point_contours m).1 = [].
Proof.
  intros Hm. unfold point_contours. simpl.
  apply concat_imap_nil. intros i r Hr.
  apply concat_imap_nil. intros j v Hv.
  eapply Forall_forall in Hm; [|exact Hr].
  eapply Forall_forall in Hm; [|exact Hv]. by subst v.
Qed.

Section NoParts.
Context `{cv : OpenCV}.

Lemma draw_parts_nothing a parts st :
  (∀ m, Forall (Forall (λ v, v = 0)) m → (findContours m).1 = []) →
  Forall (λ k, k ≠ 0 ∧ Forall (Forall (λ v, v ≠ k)) a) parts →
  draw_parts a parts st = st.
Proof.
  intros Hfind Hparts. revert st.
  induction Hparts as [|k parts [Hk Ha] _ IH]; intros st; [done|].
  unfold draw_parts. simpl. fold (draw_parts a parts).
  rewrite <- (IH st) at 2. f_equal.
  unfold draw_part, part_contours.
  by rewrite (Hfind _ (threshold_absent _ _ Hk Ha)).
Qed.

(** X7.  When [cv2.findContours] finds nothing in an empty mask, a label
    array without any of the labels 1..23 and a union mask without 1 leave
    the colorized image untouched: [generate_bitmaps] writes it doubled,
    and the three mask artifacts are entirely white. *)
Theorem X7_no_part_no_contour (σ : world) (prefix : string)
    (image output_orig outline : loc) (im : list (list pixel))
    (a o : list (list Z)) :
  (∀ m, Forall (Forall (λ v, v = 0)) m → (findContours m).1 = []) →
  heap σ !! image = Some (Bgr im) →
  heap σ !! output_orig = Some (Gray a) →
  heap σ !! outline = Some (Gray o) →
  Forall (Forall (λ v, ¬ 1 ≤ v ≤ 23)) a →
  Forall (Forall (λ v, v ≠ 1)) o →
  ∃ σ',
    generate_bitmaps prefix image output_orig outline σ = (inr (), σ')
    ∧ disk σ'
      = disk σ
        ++ artifact_events prefix "blank"
             (Bgr (doubled (np_full (nrows im) (ncols im) white)))
        ++ artifact_events prefix "image" (Bgr (doubled im))
        ++ artifact_events prefix "image_bw" (Gray (map (map bgr2gray) (doubled im)))
        ++ artifact_events prefix "blank_outline"
             (Bgr (doubled (np_full (nrows im) (ncols im) white)))
        ++ artifact_events prefix "solid_outline"
             (Bgr (doubled (np_full (nrows im) (ncols im) white))).
Proof.
  intros Hfind Him Hoo Hol Ha Ho.
  assert (Hparts : draw_parts a (seqZ 1 23) (im, np_full (nrows im) (ncols im) black)
                   = (im, np_full (nrows im) (ncols im) black)).
  { apply draw_parts_nothing; [done|]. apply Forall_forall. intros k Hk.
    apply elem_of_seqZ in Hk. split; [lia|].
    eapply Forall_impl; [exact Ha|]. intros r Hr. simpl.
    eapply Forall_impl; [exact Hr|]. intros v Hv. simpl in *. lia. }
  assert (Hsil : ∀ t canvas, silhouette o t canvas = canvas).
  { intros t canvas. unfold silhouette, part_contours.
    by rewrite (Hfind _ (threshold_absent o 1 ltac:(lia) Ho)). }
  destruct (wp_elim (generate_bitmaps prefix image output_orig outline) σ
    (λ r σ', r = inr () ∧ disk σ' = disk σ ++ bitmap_events prefix im a o))
    as (r & σ' & Hrun & -> & Hdisk).
  { apply (wp_generate_bitmaps _ _ _ _ _ _ _ _ _ Him Hoo Hol). by intros σ' _ _ ?. }
  exists σ'. split; [done|]. rewrite Hdisk. f_equal.
  unfold bitmap_events, bitmap_artifacts. cbv zeta.
  rewrite Hparts, !Hsil. cbn [map concat fst snd].
  by rewrite !bitwise_not_black, app_nil_r.
Qed.

End NoParts.

Lemma X7_no_part_no_contour_witness :
  let σ := World {[ 0%nat := Bgr [[(9, 9, 9); (255, 255, 255)]];
                    1%nat := Gray [[0; 24]]; 2%nat := Gray [[0; 0]] ]} [] [] in
  let im := [[(9, 9, 9); (255, 255, 255)]] in
  ∃ σ',
    generate_bitmaps (cv := small_cv) "/results/a_" 0%nat 1%nat 2%nat σ = (inr (), σ')
    ∧ disk σ'
      = disk σ
        ++ artifact_events "/results/a_" "blank"
             (Bgr (doubled (cv := small_cv) (np_full (nrows im) (ncols im) white)))
        ++ artifact_events "/results/a_" "image" (Bgr (doubled (cv := small_cv) im))
        ++ artifact_events "/results/a_" "image_bw"
             (Gray (map (map (bgr2gray (OpenCV := small_cv))) (doubled (cv := small_cv) im)))
        ++ artifact_events "/results/a_" "blank_outline"
             (Bgr (doubled (cv := small_cv) (np_full (nrows im) (ncols im) white)))
        ++ artifact_events "/results/a_" "solid_outline"
             (Bgr (doubled (cv := small_cv) (np_full (nrows im) (ncols im) white))).
Proof.
  apply (X7_no_part_no_contour (cv := small_cv) _ "/results/a_" 0%nat 1%nat 2%nat
           [[(9, 9, 9); (255, 255, 255)]] [[0; 24]] [[0; 0]]).
  - apply point_contours_of_zeros.
  - reflexivity.
  - reflexivity.
  - reflexivity.
  - repeat constructor; lia.
  - repeat constructor; lia.
Defined.

(** ** Paths *)

Example os_path_split_nested : os_path_split "a/b/c.png" = ("a/b", "c.png").
Proof. reflexivity. Qed.

Example os_path_split_root : os_path_split "/x" = ("/", "x").
Proof. reflexivity. Qed.

Example os_path_split_double_slash : os_path_split "a//b" = ("a", "b").
Proof. reflexivity. Qed.

Example os_path_split_plain : os_path_split "abc" = ("", "abc").
Proof. reflexivity. Qed.

Example os_path_splitext_two_dots : os_path_splitext "c.tar.gz" = ("c.tar", ".gz").
Proof. reflexivity. Qed.

Example os_path_splitext_hidden : os_path_splitext "a/.bashrc" = ("a/.bashrc", "").
Proof. reflexivity. Qed.

Example os_path_splitext_dot_in_directory : os_path_splitext "a.b/c" = ("a.b/c", "").
Proof. reflexivity. Qed.

Example os_path_splitext_trailing_dot : os_path_splitext "a." = ("a", ".").
Proof. reflexivity. Qed.

Example str_split_empty_pieces : str_split comma "a,b,,c" = ["a"; "b"; ""; "c"].
Proof. reflexivity. Qed.

Example str_split_of_empty : str_split comma "" = [""].
Proof. reflexivity. Qed.

Lemma rsplit_at_absent c s : occurs c s = false → rsplit_at c s = None.
Proof.
  induction s as [|a s IH]; [done|]. simpl.
  intros [Ha Hs]%orb_false_iff. rewrite (IH Hs). by rewrite Ha.
Qed.

Lemma rsplit_at_last c h t :
  occurs c t = false → rsplit_at c (h +:+ String c t) = Some (h, t).
Proof.
  intros Ht. induction h as [|a h IH]; simpl.
  - rewrite (rsplit_at_absent _ _ Ht). by rewrite bool_decide_eq_true_2.
  - by rewrite IH.
Qed.

Lemma all_char_absent c s :
  s ≠ "" → occurs c s = false → all_char c s = false.
Proof.
  intros Hs Hoc. destruct s as [|a s]; [done|]. simpl in *.
  apply orb_false_iff in Hoc as [Ha _]. by rewrite Ha.
Qed.

Lemma string_app_assoc (a b c : string) : (a +:+ b) +:+ c = a +:+ b +:+ c.
Proof.
  induction a as [|x a IH]; [done|].
  change (String x ((a +:+ b) +:+ c) = String x (a +:+ b +:+ c)). by rewrite IH.
Qed.

Lemma occurs_app c a b : occurs c (a +:+ b) = occurs c a || occurs c b.
Proof.
  induction a as [|x a IH]; [done|].
  change (bool_decide (x = c) || occurs c (a +:+ b)
          = bool_decide (x = c) || occurs c a || occurs c b).
  by rewrite IH, orb_assoc.
Qed.

(** X8.  The artifacts of an image are named after the base name of its
    file only: for a file [name.ext], in any directory or in none, the stem
    that lines 358-360 put in the prefix is [name].  Two inputs that differ
    only in their directory or in their extension get the same prefix. *)
Theorem X8_prefix_is_the_base_name (dir name ext : string) :
  name ≠ "" →
  occurs slash name = false → occurs dot name = false →
  occurs slash ext = false → occurs dot ext = false →
  file_stem_of (dir +:+ "/" +:+ name +:+ "." +:+ ext) = name
  ∧ file_stem_of (name +:+ "." +:+ ext) = name.
Proof.
  intros Hname Hsn Hdn Hse Hde.
  assert (Hslash : occurs slash (name +:+ "." +:+ ext) = false).
  { change (name +:+ "." +:+ ext) with (name +:+ String dot ext).
    rewrite occurs_app, Hsn. cbn [occurs orb]. rewrite Hse. by vm_compute. }
  assert (Hext : (os_path_splitext (name +:+ "." +:+ ext)).1 = name).
  { unfold os_path_splitext. rewrite (rsplit_at_absent _ _ Hslash).
    change (name +:+ "." +:+ ext) with (name +:+ String dot ext).
    rewrite (rsplit_at_last _ _ _ Hde).
    by rewrite (all_char_absent dot name). }
  unfold file_stem_of. split.
  - unfold os_path_split.
    change (dir +:+ "/" +:+ name +:+ "." +:+ ext)
      with (dir +:+ String slash (name +:+ "." +:+ ext)).
    by rewrite (rsplit_at_last _ _ _ Hslash).
  - unfold os_path_split. by rewrite (rsplit_at_absent _ _ Hslash).
Qed.

Lemma X8_prefix_is_the_base_name_witness :
  file_stem_of ("photos/2021" +:+ "/" +:+ "img_7" +:+ "." +:+ "png") = "img_7"
  ∧ file_stem_of ("img_7" +:+ "." +:+ "png") = "img_7".
Proof.
  apply (X8_prefix_is_the_base_name "photos/2021" "img_7" "png"); done.
Defined.

(** ** Batches *)

Lemma pbind_ok {S E A B} (m : prog S E A) (k : A → prog S E B) σ x σ' :
  m σ = (inr x, σ') → pbind m k σ = k x σ'.
Proof. intros H. unfold pbind. by rewrite H. Qed.

Lemma pbind_raise {S E A B} (m : prog S E A) (k : A → prog S E B) σ e σ' :
  m σ = (inl e, σ') → pbind m k σ = (inl e, σ').
Proof. intros H. unfold pbind. by rewrite H. Qed.

Lemma fold_prog_app {S E A B} (body : A → B → prog S E A) xs ys a σ a' σ' :
  fold_prog body xs a σ = (inr a', σ') →
  fold_prog body (xs ++ ys) a σ = fold_prog body ys a' σ'.
Proof.
  revert a σ. induction xs as [|x xs IH]; intros a σ Hxs; simpl in *.
  - unfold pret in Hxs. by injection Hxs as -> ->.
  - unfold pbind in *. destruct (body a x σ) as [[e|a1] σ1]; [done|]. by apply IH.
Qed.

(** X9.  A failure on one input file ends the batch.  When the files before
    it have been processed and [read_image], the predictor or
    [execute_on_outputs] raises on a file, [execute] raises the same
    exception and leaves the state as that file left it: the files after it
    are not read and [postexecute] is not run. *)
Theorem X9_failure_ends_the_batch {S E Cfg Ctx Img Out}
    (cls : InferenceAction S E Cfg Ctx Img Out) (σ σ1 σ2 σ3 σ4 σ5 : S)
    (cfg : Cfg) (before after : list string) (file_name : string)
    (context0 context1 : Ctx) (e : E) :
  act_setup_config cls σ = (inr cfg, σ1) →
  act_get_input_file_list cls σ1 = (inr (before ++ file_name :: after), σ2) →
  act_create_context cls cfg σ2 = (inr context0, σ3) →
  process_files cls cfg before context0 σ3 = (inr context1, σ4) →
  pbind (act_predict cls cfg file_name)
    (λ io, act_execute_on_outputs cls context1 file_name io.1 io.2) σ4 = (inl e, σ5) →
  execute cls σ = (inl e, σ5).
Proof.
  intros Hcfg Hlist Hctx Hbefore Hfail. unfold execute.
  rewrite (pbind_ok _ _ _ _ _ Hcfg), (pbind_ok _ _ _ _ _ Hlist).
  rewrite bool_decide_eq_false_2 by (rewrite length_app; simpl; lia).
  rewrite (pbind_ok _ _ _ _ _ Hctx).
  apply pbind_raise. unfold process_files in *.
  rewrite (fold_prog_app _ _ _ _ _ _ _ Hbefore). simpl.
  by apply pbind_raise.
Qed.

Lemma X9_failure_ends_the_batch_witness :
  let image := np_full 2 2 (10, 20, 30) in
  let predict := λ f : string,
    if String.eqb f "b.png" then (image, ([[9; 9]], (1, 0, 2, 1)))
    else (image, ([[9]], (0, 0, 1, 1))) in
  let cls := ShowAction (cv := small_cv) "dp_contour" "out.png"
               ["a.png"; "b.png"; "c.png"] predict in
  let σ := World ∅ [] [] in
  let context0 := ShowContext [DensePoseResultsContourVisualizer] "out.png" 0 in
  let r := process_files cls () ["a.png"] context0 σ in
  let context1 := ShowContext [DensePoseResultsContourVisualizer] "out.png" 1 in
  let failing :=
    pbind (act_predict cls () "b.png")
      (λ io, act_execute_on_outputs cls context1 "b.png" io.1 io.2) r.2 in
  execute cls σ = (inl (ArrayError ValueError), failing.2).
Proof.
  cbv zeta.
  set (image := np_full 2 2 (10, 20, 30)).
  set (predict := λ f : string,
    if String.eqb f "b.png" then (image, ([[9; 9]], (1, 0, 2, 1)))
    else (image, ([[9]], (0, 0, 1, 1)))).
  set (cls := ShowAction (cv := small_cv) "dp_contour" "out.png"
                ["a.png"; "b.png"; "c.png"] predict).
  set (σ := World ∅ [] []).
  set (context0 := ShowContext [DensePoseResultsContourVisualizer] "out.png" 0).
  set (context1 := ShowContext [DensePoseResultsContourVisualizer] "out.png" 1).
  apply (X9_failure_ends_the_batch cls σ σ σ σ
           (process_files cls () ["a.png"] context0 σ).2
           (pbind (act_predict cls () "b.png")
              (λ io, act_execute_on_outputs cls context1 "b.png" io.1 io.2)
              (process_files cls () ["a.png"] context0 σ).2).2
           () ["a.png"] ["c.png"] "b.png" context0 context1
           (ArrayError ValueError)).
  - reflexivity.
  - reflexivity.
  - reflexivity.
  - by vm_compute.
  - by vm_compute.
Defined.

(** Without input files [execute] stops after the listing: no context is
    made and [postexecute] is not run. *)
Lemma execute_without_input_file {S E Cfg Ctx Img Out}
    (cls : InferenceAction S E Cfg Ctx Img Out) (σ σ1 σ2 : S) (cfg : Cfg) :
  act_setup_config cls σ = (inr cfg, σ1) →
  act_get_input_file_list cls σ1 = (inr [], σ2) →
  execute cls σ = (inr (), σ2).
Proof.
  intros Hcfg Hlist. unfold execute.
  by rewrite (pbind_ok _ _ _ _ _ Hcfg), (pbind_ok _ _ _ _ _ Hlist).
Qed.

(** ** What a batch leaves on disk *)

Lemma files_of_app log1 log2 :
  files_of (log1 ++ log2) = fold_left record_event log2 (files_of log1).
Proof. unfold files_of. apply fold_left_app. Qed.

Lemma files_fold_other log path : ∀ files : gmap string ndarray,
  Forall (λ e, ¬ writes_to path e) log →
  fold_left record_event log files !! path = files !! path.
Proof.
  induction log as [|e log IH]; intros files Hlog; [done|].
  apply Forall_cons in Hlog as [He Hlog]. simpl. rewrite (IH _ Hlog).
  destruct e; simpl in *; try done; by rewrite lookup_insert_ne.
Qed.

(** The array last written to [path] is the one the files hold. *)
Lemma files_of_last_write before e path a after :
  record_event ∅ e = {[ path := a ]} →
  Forall (λ e, ¬ writes_to path e) after →
  files_of (before ++ e :: after) !! path = Some a.
Proof.
  intros He Hafter. rewrite files_of_app. simpl.
  rewrite (files_fold_other _ _ _ Hafter).
  destruct e as [p|p b|p b|c]; simpl in *.
  - exfalso. by apply (map_non_empty_singleton (M := gmap string) path a).
  - assert (p = path ∧ b = a) as [-> ->]; [|apply lookup_insert_eq].
    assert (Hl : (<[p:=b]> (∅ : gmap string ndarray)) !! p = Some b)
      by apply lookup_insert_eq.
    rewrite He in Hl. apply lookup_singleton_Some in Hl as [-> ->]. done.
  - assert (p = path ∧ b = a) as [-> ->]; [|apply lookup_insert_eq].
    assert (Hl : (<[p:=b]> (∅ : gmap string ndarray)) !! p = Some b)
      by apply lookup_insert_eq.
    rewrite He in Hl. apply lookup_singleton_Some in Hl as [-> ->]. done.
  - exfalso. by apply (map_non_empty_singleton (M := gmap string) path a).
Qed.

Section ShowBatch.
Context `{cv : OpenCV}.

Lemma bitmap_events_paths prefix im a o path :
  (∀ name, path ≠ "/content/" +:+ prefix +:+ name +:+ ".bmp") →
  Forall (λ e, ¬ writes_to path e) (bitmap_events prefix im a o).
Proof.
  intros Hother. unfold bitmap_events.
  apply Forall_concat, Forall_map, Forall_forall.
  intros [name arr] _. unfold artifact_events. simpl.
  apply Forall_cons_2; [|apply Forall_cons_2; [|apply Forall_nil_2]]; simpl; [|tauto].
  intros <-. by apply (Hother name).
Qed.

(** One file of the batch whose box is accepted. *)
Lemma show_step visualizations output file_list predict context file_name image
    outputs σ :
  box_accepted image outputs.1 outputs.2 = true →
  ∃ σ' mk,
    act_execute_on_outputs (ShowAction visualizations output file_list predict)
      context file_name image outputs σ
    = (inr (ShowContext (ctx_visualizers context) (ctx_out_fname context)
              (ctx_entry_idx context + 1)), σ')
    ∧ heap σ ⊆ heap σ'
    ∧ disk σ' = (disk σ ++ mk) ++ label_dumps outputs.1
                ++ image_events (file_stem_of file_name) image outputs.1 outputs.2.
Proof.
  intros Hacc.
  destruct (wp_elim
    (execute_on_outputs (ctx_entry_idx context) (file_stem_of file_name) image
       outputs.1 outputs.2) σ
    (λ r σ', r = inr (ctx_entry_idx context + 1)
             ∧ heap σ ⊆ heap σ'
             ∧ disk σ' = (disk σ
                 ++ (if bool_decide ("/content/results" ∈ dirs σ) then []
                     else [Mkdir "/content/results"]))
                 ++ label_dumps outputs.1
                 ++ image_events (file_stem_of file_name) image outputs.1 outputs.2))
    as (r & σ' & Hrun & -> & Hsub & Hdisk).
  { apply wp_execute_on_outputs. rewrite Hacc. intros σ' ? ->.
    by rewrite <- !app_assoc. }
  exists σ', (if bool_decide ("/content/results" ∈ dirs σ) then []
              else [Mkdir "/content/results"]).
  split; [|done]. simpl. unfold pbind, lift_array. by rewrite Hrun.
Qed.

(** The fixed paths after the events of one image. *)
Lemma files_after_image before file_stem image labels bbox :
  let files := files_of (before ++ label_dumps labels
                         ++ image_events file_stem image labels bbox) in
  files !! "/content/output_orig.npy" = Some (Gray (merged_labels labels))
  ∧ files !! "/content/output_outline.npy" = Some (Gray (union_mask labels))
  ∧ files !! "/content/results/mytest.jpg" = Some (Bgr (composited image labels bbox)).
Proof.
  simpl. unfold label_dumps, image_events.
  set (bitmaps := bitmap_events _ _ _ _).
  assert (Hb : ∀ path, (∀ name, path ≠ "/content/" +:+ ("/results/" +:+ file_stem +:+ "_")
                                        +:+ name +:+ ".bmp") →
                       Forall (λ e, ¬ writes_to path e) bitmaps)
    by (intros path; apply bitmap_events_paths).
  clearbody bitmaps. simpl.
  set (d1 := NpSave "/content/output_orig.npy" _).
  set (d2 := NpSave "/content/output_outline.npy" _).
  set (d3 := NpSave _ (Bgr (colorized_labels labels))).
  set (d4 := ImWrite "/content/results/mytest.jpg" _).
  split; [|split].
  - apply (files_of_last_write before d1); [done|].
    apply Forall_cons_2; [by intros [=]|].
    apply Forall_cons_2; [simpl; by intros [=]|].
    apply Forall_cons_2; [by intros [=]|].
    apply Hb. intros name H. simpl in H. discriminate H.
  - replace (before ++ d1 :: d2 :: d3 :: d4 :: bitmaps)
      with ((before ++ [d1]) ++ d2 :: d3 :: d4 :: bitmaps) by by rewrite <- app_assoc.
    apply (files_of_last_write _ d2); [done|].
    apply Forall_cons_2; [simpl; by intros [=]|].
    apply Forall_cons_2; [by intros [=]|].
    apply Hb. intros name H. simpl in H. discriminate H.
  - replace (before ++ d1 :: d2 :: d3 :: d4 :: bitmaps)
      with ((before ++ [d1; d2; d3]) ++ d4 :: bitmaps) by by rewrite <- app_assoc.
    apply (files_of_last_write _ d4); [done|].
    apply Hb. intros name H. simpl in H. discriminate H.
Qed.

(** X10.  A batch of the show action in which every box is accepted: the
    loop returns, [entry_idx] has grown by the number of files, and the
    dumps and the composite with fixed names ([output_orig.npy],
    [output_outline.npy], [mytest.jpg]) hold what the last file gave, each
    file having overwritten those of the file before. *)
Theorem X10_show_batch_keeps_the_last_image (visualizations output : string)
    (file_list files : list string)
    (predict : string → list (list pixel) * (list (list Z) * (Z * Z * Z * Z)))
    (context : show_context) (σ : world) :
  Forall (λ f, box_accepted (predict f).1 (predict f).2.1 (predict f).2.2 = true) files →
  ∃ context' σ',
    process_files (ShowAction visualizations output file_list predict) ()
      files context σ = (inr context', σ')
    ∧ ctx_entry_idx context' = ctx_entry_idx context + Z.of_nat (length files)
    ∧ heap σ ⊆ heap σ'
    ∧ ∀ f, last files = Some f →
        files_of (disk σ') !! "/content/output_orig.npy"
        = Some (Gray (merged_labels (predict f).2.1))
        ∧ files_of (disk σ') !! "/content/output_outline.npy"
          = Some (Gray (union_mask (predict f).2.1))
        ∧ files_of (disk σ') !! "/content/results/mytest.jpg"
          = Some (Bgr (composited (predict f).1 (predict f).2.1 (predict f).2.2)).
Proof.
  intros Hfiles. revert context σ.
  induction Hfiles as [|f files Hf _ IH]; intros context σ.
  - exists context, σ. split; [done|]. split; [simpl; lia|]. split; [done|].
    by intros f [=].
  - destruct (show_step visualizations output file_list predict context f
                (predict f).1 (predict f).2 σ Hf) as (σ1 & mk & Hstep & Hsub1 & Hdisk1).
    destruct (IH (ShowContext (ctx_visualizers context) (ctx_out_fname context)
                    (ctx_entry_idx context + 1)) σ1)
      as (context' & σ' & Hrest & Hidx & Hsub & Hlast).
    exists context', σ'. split; [|split; [|split]].
    + unfold process_files in *. simpl.
      erewrite pbind_ok; [exact Hrest|]. exact Hstep.
    + rewrite Hidx. simpl. lia.
    + by etrans.
    + intros g Hg. destruct files as [|f' files].
      * injection Hg as <-. unfold process_files in Hrest. simpl in Hrest.
        unfold pret in Hrest. injection Hrest as <- <-.
        rewrite Hdisk1. apply files_after_image.
      * apply Hlast. exact Hg.
Qed.

End ShowBatch.

Lemma X10_show_batch_keeps_the_last_image_witness :
  let image := np_full 2 2 (10, 20, 30) in
  let predict := λ f : string,
    if String.eqb f "b.png" then (image, ([[9]], (1, 0, 1, 1)))
    else (image, ([[2]], (0, 0, 1, 1))) in
  let files := ["a.png"; "b.png"] in
  let context := ShowContext [DensePoseResultsContourVisualizer] "out.png" 0 in
  let σ := World ∅ [] [] in
  ∃ context' σ',
    process_files (ShowAction (cv := small_cv) "dp_contour" "out.png" files predict) ()
      files context σ = (inr context', σ')
    ∧ ctx_entry_idx context' = ctx_entry_idx context + Z.of_nat (length files)
    ∧ heap σ ⊆ heap σ'
    ∧ ∀ f, last files = Some f →
        files_of (disk σ') !! "/content/output_orig.npy"
        = Some (Gray (merged_labels (predict f).2.1))
        ∧ files_of (disk σ') !! "/content/output_outline.npy"
          = Some (Gray (union_mask (predict f).2.1))
        ∧ files_of (disk σ') !! "/content/results/mytest.jpg"
          = Some (Bgr (composited (cv := small_cv) (predict f).1 (predict f).2.1
                         (predict f).2.2)).
Proof.
  apply (X10_show_batch_keeps_the_last_image (cv := small_cv) "dp_contour" "out.png"
           ["a.png"; "b.png"]
           ["a.png"; "b.png"]
           (λ f : string,
              if String.eqb f "b.png"
              then (np_full 2 2 (10, 20, 30), ([[9]], (1, 0, 1, 1)))
              else (np_full 2 2 (10, 20, 30), ([[2]], (0, 0, 1, 1))))
           (ShowContext [DensePoseResultsContourVisualizer] "out.png" 0)
           (World ∅ [] [])).
  repeat constructor.
Defined.

(** ** The context of the show action *)

Lemma str_split_nonempty sep s : str_split sep s ≠ [].
Proof.
  destruct s as [|a s]; [done|]. simpl.
  case_bool_decide; [done|]. by destruct (str_split sep s).
Qed.

Lemma str_split_app sep a b :
  str_split sep (a +:+ String sep b) = str_split sep a ++ str_split sep b.
Proof.
  induction a as [|x a IH].
  - simpl. by rewrite bool_decide_eq_true_2.
  - change (String x a +:+ String sep b) with (String x (a +:+ String sep b)).
    simpl. rewrite IH. case_bool_decide; [done|].
    pose proof (str_split_nonempty sep a).
    by destruct (str_split sep a).
Qed.

Lemma str_join_split s : str_join "," (str_split comma s) = s.
Proof.
  induction s as [|a s IH]; [done|]. simpl.
  pose proof (str_split_nonempty comma s) as Hne.
  destruct (str_split comma s) as [|piece pieces]; [done|].
  case_bool_decide as Ha.
  - subst a. change (str_join "," ("" :: piece :: pieces))
      with (String comma (str_join "," (piece :: pieces))). by rewrite IH.
  - rewrite <- IH. by destruct pieces.
Qed.

Lemma make_visualizers_app_fails specs1 specs2 :
  (∃ k, make_visualizers specs2 = inl (KeyError k)) →
  ∃ k, make_visualizers (specs1 ++ specs2) = inl (KeyError k).
Proof.
  intros Hfail. induction specs1 as [|spec specs1 [k IH]]; [done|]. simpl.
  destruct (VISUALIZERS !! spec); [|by eexists]. rewrite IH. by eexists.
Qed.

Lemma make_visualizers_outcome specs :
  match make_visualizers specs with
  | inr visualizers =>
      Forall2 (λ spec vis, VISUALIZERS !! spec = Some vis) specs visualizers
  | inl e => ∃ spec, e = KeyError spec ∧ spec ∈ specs ∧ VISUALIZERS !! spec = None
  end.
Proof.
  induction specs as [|spec specs IH]; simpl; [constructor|].
  destruct (VISUALIZERS !! spec) as [vis|] eqn:Hspec.
  - destruct (make_visualizers specs) as [e|visualizers].
    + destruct IH as (s & -> & Hs & Hnone). exists s. split; [done|].
      split; [by right|done].
    + by constructor.
  - exists spec. split; [done|]. split; [by left|done].
Qed.

(** X11.  [ShowAction.create_context] splits [args.visualizations] at
    every comma and looks every piece up in [VISUALIZERS].  When every
    piece is a key, the context holds the visualizers of the pieces, one
    for each and in their order, the output name, and [entry_idx] 0.
    Otherwise it raises [KeyError] on a piece that is not a key.  The pieces
    joined by commas give the argument back, so an empty piece is kept: a
    list that ends with a comma always raises [KeyError]. *)
Theorem X11_show_create_context_outcome (visualizations output : string) :
  match show_create_context visualizations output with
  | inr context =>
      Forall2 (λ spec vis, VISUALIZERS !! spec = Some vis)
        (str_split comma visualizations) (ctx_visualizers context)
      ∧ ctx_out_fname context = output
      ∧ ctx_entry_idx context = 0
  | inl e =>
      ∃ spec, e = KeyError spec
              ∧ spec ∈ str_split comma visualizations
              ∧ VISUALIZERS !! spec = None
  end
  ∧ str_join "," (str_split comma visualizations) = visualizations
  ∧ ∃ key, show_create_context (visualizations +:+ ",") output = inl (KeyError key).
Proof.
  split; [|split].
  - unfold show_create_context.
    pose proof (make_visualizers_outcome (str_split comma visualizations)) as H.
    by destruct (make_visualizers (str_split comma visualizations)).
  - apply str_join_split.
  - unfold show_create_context.
    change (visualizations +:+ ",") with (visualizations +:+ String comma "").
    rewrite str_split_app.
    destruct (make_visualizers_app_fails (str_split comma visualizations)
                (str_split comma "")) as [k Hk].
    + exists "". reflexivity.
    + exists k. by rewrite Hk.
Qed.

Example show_create_context_two :
  show_create_context "dp_contour,bbox" "outputres.png"
  = inr (ShowContext [DensePoseResultsContourVisualizer; ScoredBoundingBoxVisualizer]
           "outputres.png" 0).
Proof. reflexivity. Qed.

Example show_create_context_space :
  show_create_context "dp_contour, bbox" "outputres.png" = inl (KeyError " bbox").
Proof. reflexivity. Qed.

(** ** The dump action *)

Lemma rsplit_at_present c s :
  occurs c s = true → ∃ h t, rsplit_at c s = Some (h, t).
Proof.
  induction s as [|a s IH]; [done|]. simpl. intros Hoc.
  destruct (rsplit_at c s) as [[h t]|] eqn:Hs; [by eauto|].
  destruct (bool_decide (a = c)); [by eauto|]. simpl in Hoc.
  destruct (IH Hoc) as (h & t & [=]).
Qed.

Lemma rstrip_empty c s : rstrip c s = "" → all_char c s = true.
Proof.
  induction s as [|a s IH]; [done|]. simpl.
  destruct (rstrip c s) eqn:Hr; [|done].
  case_bool_decide; [|done]. intros _. by rewrite IH.
Qed.

(** The directory of a path is empty exactly when the path has no slash. *)
Lemma os_path_dirname_empty p : os_path_dirname p = "" ↔ occurs slash p = false.
Proof.
  unfold os_path_dirname, os_path_split. split.
  - intros Hdir. destruct (occurs slash p) eqn:Hoc; [|done].
    destruct (rsplit_at_present _ _ Hoc) as (h & t & Hs). rewrite Hs in Hdir.
    simpl in Hdir. destruct (all_char slash (h +:+ "/")) eqn:Hall.
    + by destruct h.
    + apply rstrip_empty in Hdir. congruence.
  - intros Hoc. by rewrite (rsplit_at_absent _ _ Hoc).
Qed.

Section DumpFacts.
Variable DensePoseResultExtractor : instances → tensor.
Variable DensePoseOutputsExtractor : instances → tensor.

(** Facts of the form [is_Some (m !! k) ↔ is_Some o1 ∧ is_Some o2] on
    dicts and options that are known. *)
Ltac known_is_Some :=
  split;
  [ intros [x Hx]; first [ discriminate Hx | split; by eexists ]
  | intros [[x Hx] [y Hy]]; first [ discriminate Hx | discriminate Hy | by eexists ] ].

(** X12.  [DumpAction.execute_on_outputs] either appends one result to
    [context["results"]] or raises [UnboundLocalError]: the latter exactly
    when the outputs have boxes and a [pred_densepose] that is neither a
    chart nor an embedding output.  The appended result always has the
    file name; it has the scores and the boxes exactly when the outputs
    have them, and the DensePose data only when the outputs have both boxes
    and DensePose, so DensePose data without boxes is dropped. *)
Theorem X12_dump_execute_on_outputs_outcome (context : dump_context)
    (image_fpath : string) (outputs : instances) :
  match dump_execute_on_outputs DensePoseResultExtractor DensePoseOutputsExtractor
          context image_fpath outputs with
  | inl e => e = UnboundLocalError "extractor" ∧ no_extractor outputs
  | inr context' =>
      ¬ no_extractor outputs
      ∧ dump_out_fname context' = dump_out_fname context
      ∧ ∃ result,
          dump_results context' = dump_results context ++ [result]
          ∧ result !! "file_name" = Some (DStr image_fpath)
          ∧ result !! "scores" = DTensor <$> scores outputs
          ∧ result !! "pred_boxes_XYXY" = DTensor <$> pred_boxes outputs
          ∧ (is_Some (result !! "pred_densepose")
             ↔ is_Some (pred_boxes outputs) ∧ is_Some (pred_densepose outputs))
          ∧ dom result ⊆ {[ "file_name"; "scores"; "pred_boxes_XYXY"; "pred_densepose" ]}
  end.
Proof.
  unfold dump_execute_on_outputs, no_extractor.
  destruct outputs as [[s|] [b|] [[d|d|d]|]]; simpl;
    try (split; [done|by eauto]);
    (split; [intros [[x Hx] [data Hd]]; first [discriminate Hx | discriminate Hd]|]);
    (split; [done|]); eexists; (split; [done|]);
    (split; [done|]); (split; [done|]); (split; [done|]);
    (split; [known_is_Some|]);
    rewrite ?dom_insert_L, ?dom_singleton_L;
    intros k; rewrite ?elem_of_union, ?elem_of_singleton; tauto.
Qed.

(** X13.  [DumpAction.postexecute] writes the results once, to
    [out_fname], whatever the context; before that it makes the directory of [out_fname] when the
    name has a slash and the directory does not exist, and never when the
    name has no slash. *)
Theorem X13_dump_postexecute_outcome (context : dump_context) (fs : dump_fs) :
  ∃ fs',
    dump_postexecute context fs = (inr (), fs')
    ∧ fs_log fs'
      = fs_log fs
        ++ (if occurs slash (dump_out_fname context)
               && negb (bool_decide (os_path_dirname (dump_out_fname context)
                                     ∈ fs_paths fs))
            then [Makedirs (os_path_dirname (dump_out_fname context))] else [])
        ++ [TorchSave (dump_out_fname context) (dump_results context)]
    ∧ dump_out_fname context ∈ fs_paths fs'.
Proof.
  unfold dump_postexecute. eexists. split; [done|]. simpl.
  assert (Hlen : bool_decide (0 < String.length (os_path_dirname (dump_out_fname context)))%nat
                 = occurs slash (dump_out_fname context)).
  { pose proof (os_path_dirname_empty (dump_out_fname context)) as Hiff.
    destruct (occurs slash (dump_out_fname context)).
    - apply bool_decide_eq_true_2.
      destruct (os_path_dirname (dump_out_fname context)); simpl; [|lia].
      discriminate (proj1 Hiff eq_refl).
    - apply bool_decide_eq_false_2. rewrite (proj2 Hiff eq_refl). simpl. lia. }
  rewrite Hlen. split; [|by left].
  destruct (occurs slash _ && negb _); simpl; by rewrite <- ?app_assoc.
Qed.

Lemma dump_execute_on_outputs_fails context image_fpath outputs :
  no_extractor outputs →
  dump_execute_on_outputs DensePoseResultExtractor DensePoseOutputsExtractor
    context image_fpath outputs = inl (UnboundLocalError "extractor").
Proof.
  intros [[b Hb] [data Hd]]. unfold dump_execute_on_outputs. by rewrite Hb, Hd.
Qed.

Lemma dump_execute_on_outputs_ok context image_fpath outputs :
  ¬ no_extractor outputs →
  ∃ result,
    dump_execute_on_outputs DensePoseResultExtractor DensePoseOutputsExtractor
      context image_fpath outputs
    = inr (DumpContext (dump_results context ++ [result]) (dump_out_fname context))
    ∧ result !! "file_name" = Some (DStr image_fpath).
Proof.
  intros Hok. unfold dump_execute_on_outputs, no_extractor in *.
  destruct outputs as [[s|] [b|] [[d|d|d]|]]; simpl in *;
    try (eexists; split; [done|done]).
  - exfalso. apply Hok. by eauto.
  - exfalso. apply Hok. by eauto.
Qed.

Lemma dump_process_files_ok output file_list predict files : ∀ context fs,
  Forall (λ f, ¬ no_extractor (predict f)) files →
  ∃ new,
    process_files
      (DumpAction DensePoseResultExtractor DensePoseOutputsExtractor output file_list predict)
      () files context fs
    = (inr (DumpContext (dump_results context ++ new) (dump_out_fname context)), fs)
    ∧ map (λ result : gmap string dump_value, result !! "file_name") new
      = map (λ f, Some (DStr f)) files.
Proof.
  unfold process_files.
  induction files as [|f files IH]; intros context fs Hfiles.
  - exists []. simpl. split; [|done]. rewrite app_nil_r. by destruct context.
  - apply Forall_cons in Hfiles as [Hf Hfiles].
    destruct (dump_execute_on_outputs_ok context f (predict f) Hf) as (r & Hr & Hname).
    destruct (IH (DumpContext (dump_results context ++ [r]) (dump_out_fname context))
                fs Hfiles) as (new & Hrest & Hnames).
    exists (r :: new). split.
    + cbn [fold_prog].
      erewrite pbind_ok; [|unfold pbind, pret; simpl; by rewrite Hr].
      rewrite Hrest. simpl. by rewrite <- app_assoc.
    + simpl. by rewrite Hname, Hnames.
Qed.

Lemma dump_process_files_fails output file_list predict files : ∀ context fs,
  Exists (λ f, no_extractor (predict f)) files →
  process_files
    (DumpAction DensePoseResultExtractor DensePoseOutputsExtractor output file_list predict)
    () files context fs
  = (inl (UnboundLocalError "extractor"), fs).
Proof.
  unfold process_files.
  induction files as [|f files IH]; intros context fs Hfiles.
  - by apply Exists_nil in Hfiles.
  - simpl. unfold pbind at 1 2, pret at 1. simpl.
    destruct (dump_execute_on_outputs _ _ context f (predict f)) as [e|context'] eqn:Hf.
    + apply Exists_cons in Hfiles as [Hbad|Hrest].
      * rewrite (dump_execute_on_outputs_fails _ _ _ Hbad) in Hf. by injection Hf as <-.
      * unfold dump_execute_on_outputs in Hf.
        destruct (pred_boxes (predict f)); [|done].
        destruct (pred_densepose (predict f)) as [[]|]; try done. by injection Hf as <-.
    + apply IH. apply Exists_cons in Hfiles as [Hbad|Hrest]; [|done].
      rewrite (dump_execute_on_outputs_fails _ _ _ Hbad) in Hf. done.
Qed.

(** X14.  The dump action saves nothing when there is no input file, and
    nothing either when the outputs of one file have no extractor: the
    exception leaves [execute] before [postexecute], and the results of the
    files already processed are lost with the context. *)
Theorem X14_dump_saves_nothing (output : string) (files : list string)
    (predict : string → instances) (fs : dump_fs) :
  files = [] ∨ Exists (λ f, no_extractor (predict f)) files →
  execute (DumpAction DensePoseResultExtractor DensePoseOutputsExtractor
             output files predict) fs
  = (if bool_decide (files = []) then inr () else inl (UnboundLocalError "extractor"),
     fs).
Proof.
  intros [->|Hbad]; [done|].
  assert (files ≠ []) as Hne by (intros ->; by apply Exists_nil in Hbad).
  rewrite (bool_decide_eq_false_2 _ Hne).
  unfold execute. simpl. unfold pbind at 1 2, pret at 1 2.
  rewrite bool_decide_eq_false_2 by (by destruct files).
  unfold pbind at 1, pret at 1. apply pbind_raise.
  by apply dump_process_files_fails.
Qed.

(** X15.  On a list of files that is not empty and whose outputs all have
    an extractor, the dump action saves once, after the last file: the file
    [out_fname] holds one result for each input file, in the order of the
    files, each with the name of its file. *)
Theorem X15_dump_saves_one_result_per_file (output : string) (files : list string)
    (predict : string → instances) (fs : dump_fs) :
  files ≠ [] →
  Forall (λ f, ¬ no_extractor (predict f)) files →
  ∃ fs' results,
    execute (DumpAction DensePoseResultExtractor DensePoseOutputsExtractor
               output files predict) fs
    = (inr (), fs')
    ∧ fs_log fs'
      = fs_log fs
        ++ (if occurs slash output
               && negb (bool_decide (os_path_dirname output ∈ fs_paths fs))
            then [Makedirs (os_path_dirname output)] else [])
        ++ [TorchSave output results]
    ∧ map (λ result : gmap string dump_value, result !! "file_name") results
      = map (λ f, Some (DStr f)) files.
Proof.
  intros Hne Hfiles.
  destruct (dump_process_files_ok output files predict files
              (dump_create_context output) fs Hfiles) as (results & Hrun & Hnames).
  simpl in Hrun.
  assert (Hlen : bool_decide (0 < String.length (os_path_dirname output))%nat
                 = occurs slash output).
  { pose proof (os_path_dirname_empty output) as Hiff.
    destruct (occurs slash output).
    - apply bool_decide_eq_true_2.
      destruct (os_path_dirname output); simpl; [|lia].
      discriminate (proj1 Hiff eq_refl).
    - apply bool_decide_eq_false_2. rewrite (proj2 Hiff eq_refl). simpl. lia. }
  eexists _, results. split; [|split; [|exact Hnames]].
  - unfold execute. simpl. unfold pbind at 1 2, pret at 1 2.
    rewrite bool_decide_eq_false_2 by (by destruct files).
    unfold pbind at 1, pret at 1.
    erewrite pbind_ok; [|exact Hrun]. reflexivity.
  - simpl. rewrite Hlen.
    destruct (occurs slash _ && negb _); simpl; by rewrite <- ?app_assoc.
Qed.

End DumpFacts.

Lemma X14_dump_saves_nothing_witness :
  let predict := λ _ : string,
    Instances None (Some [1; 2; 3; 4]) (Some (OtherPredictorOutput [])) in
  let fs := DumpFs [] [] in
  execute (DumpAction (λ _, [7]) (λ _, [8]) "out/results.pkl" ["a.jpg"] predict) fs
  = (if bool_decide (["a.jpg"] = []) then inr ()
     else inl (UnboundLocalError "extractor"), fs).
Proof.
  apply (X14_dump_saves_nothing (λ _, [7]) (λ _, [8]) "out/results.pkl" ["a.jpg"]
           (λ _ : string,
              Instances None (Some [1; 2; 3; 4]) (Some (OtherPredictorOutput [])))
           (DumpFs [] [])).
  right. constructor. split; [by eexists|]. by eexists.
Defined.

Lemma X15_dump_saves_one_result_per_file_witness :
  let predict := λ _ : string,
    Instances (Some [9]) (Some [1; 2; 3; 4])
      (Some (DensePoseChartPredictorOutput [])) in
  let files := ["a.jpg"; "b.jpg"] in
  let output := "out/results.pkl" in
  let fs := DumpFs [] [] in
  ∃ fs' results,
    execute (DumpAction (λ _, [7]) (λ _, [8]) output files predict) fs
    = (inr (), fs')
    ∧ fs_log fs'
      = fs_log fs
        ++ (if occurs slash output
               && negb (bool_decide (os_path_dirname output ∈ fs_paths fs))
            then [Makedirs (os_path_dirname output)] else [])
        ++ [TorchSave output results]
    ∧ map (λ result : gmap string dump_value, result !! "file_name") results
      = map (λ f, Some (DStr f)) files.
Proof.
  apply (X15_dump_saves_one_result_per_file (λ _, [7]) (λ _, [8])
           "out/results.pkl" ["a.jpg"; "b.jpg"]
           (λ _ : string,
              Instances (Some [9]) (Some [1; 2; 3; 4])
                (Some (DensePoseChartPredictorOutput [])))
           (DumpFs [] [])).
  - discriminate.
  - repeat constructor; intros [_ [data Hdata]]; discriminate Hdata.
Defined.

(** ** Boxes that numpy accepts where the pipeline should not *)

Lemma slice_indices_from_the_end start stop n :
  - Z.of_nat n ≤ start → start ≤ stop → stop < 0 →
  slice_indices start stop n
  = (Z.to_nat (Z.of_nat n + start), Z.to_nat (stop - start)).
Proof.
  intros H0 H1 H2. unfold slice_indices.
  destruct (Z.ltb_spec start 0), (Z.ltb_spec stop 0); try lia.
  f_equal; lia.
Qed.

Section BoxEdges.
Context `{cv : OpenCV}.

(** X16.  A box that lies left of the source image (x + w < 0, not further
    than one image width) is not rejected: numpy counts its negative
    columns from the right edge, the pipeline returns normally and
    [mytest.jpg] has the colorized labels pasted [-x] columns before the
    right edge. *)
Theorem X16_box_left_of_the_image_wraps_around (σ : world) (entry_idx : Z)
    (file_stem : string) (entry_image : list (list pixel))
    (labels : list (list Z)) (x y w h : Z) (H W : nat) :
  has_shape entry_image H W →
  has_shape labels (Z.to_nat h) (Z.to_nat w) →
  - Z.of_nat W ≤ x → x + w < 0 → 0 < w →
  0 ≤ y → 0 < h → y + h ≤ Z.of_nat H →
  Z.of_nat W < 2 ^ 31 → Z.of_nat H < 2 ^ 31 →
  ∃ σ',
    execute_on_outputs entry_idx file_stem entry_image labels (x, y, w, h) σ
    = (inr (entry_idx + 1), σ')
    ∧ files_of (disk σ') !! "/content/results/mytest.jpg"
      = Some (Bgr (paste (Z.to_nat y) (Z.to_nat h)
                     (Z.to_nat (Z.of_nat W + x)) (Z.to_nat w)
                     (colorized_labels labels) (np_full H W white))).
Proof.
  intros Himg Hlab Hx HxW Hw Hy Hh HyH HW HH.
  assert (Hr : box_rows entry_image (x, y, w, h) = (Z.to_nat y, Z.to_nat h)).
  { unfold box_rows, i32_add. rewrite wrap32_id by lia.
    rewrite (has_shape_nrows _ _ _ Himg), slice_indices_inside by lia.
    do 2 f_equal. lia. }
  assert (Hc : box_cols entry_image (x, y, w, h)
               = (Z.to_nat (Z.of_nat W + x), Z.to_nat w)).
  { unfold box_cols, i32_add. rewrite wrap32_id by lia.
    rewrite (has_shape_ncols _ _ _ Himg), slice_indices_from_the_end by lia.
    do 2 f_equal. lia. }
  assert (Hacc : box_accepted entry_image labels (x, y, w, h) = true).
  { unfold box_accepted. rewrite Hr, Hc. simpl.
    rewrite (has_shape_nrows _ _ _ Hlab), (has_shape_ncols _ _ _ Hlab) by lia.
    unfold broadcastable.
    rewrite (bool_decide_eq_true_2 (Z.to_nat h = Z.to_nat h)) by done.
    by rewrite (bool_decide_eq_true_2 (Z.to_nat w = Z.to_nat w)) by done. }
  destruct (wp_elim
    (execute_on_outputs entry_idx file_stem entry_image labels (x, y, w, h)) σ
    (λ r σ', r = inr (entry_idx + 1)
             ∧ disk σ' = (disk σ
                 ++ (if bool_decide ("/content/results" ∈ dirs σ) then []
                     else [Mkdir "/content/results"]))
                 ++ label_dumps labels
                 ++ image_events file_stem entry_image labels (x, y, w, h)))
    as (r & σ' & Hrun & -> & Hdisk).
  { apply wp_execute_on_outputs. rewrite Hacc. intros σ' _ ->.
    by rewrite <- !app_assoc. }
  exists σ'. split; [done|]. rewrite Hdisk.
  destruct (files_after_image
              (disk σ ++ (if bool_decide ("/content/results" ∈ dirs σ) then []
                          else [Mkdir "/content/results"]))
              file_stem entry_image labels (x, y, w, h)) as (_ & _ & Hfile).
  rewrite Hfile. unfold composited. rewrite Hr, Hc. simpl.
  by rewrite (has_shape_nrows _ _ _ Himg), (has_shape_ncols _ _ _ Himg) by lia.
Qed.

(** X17.  Labels of one row are not rejected for a box of several rows:
    numpy broadcasts them, the pipeline returns normally and every row of
    the box in [mytest.jpg] is the one colorized row. *)
Theorem X17_one_row_of_labels_is_repeated (σ : world) (entry_idx : Z)
    (file_stem : string) (entry_image : list (list pixel))
    (labels : list (list Z)) (x y w h : Z) (H W : nat) :
  has_shape entry_image H W →
  has_shape labels 1 (Z.to_nat w) →
  0 ≤ x → 0 ≤ y → 0 < w → 1 < h →
  x + w ≤ Z.of_nat W → y + h ≤ Z.of_nat H →
  Z.of_nat W < 2 ^ 31 → Z.of_nat H < 2 ^ 31 →
  ∃ σ' out,
    execute_on_outputs entry_idx file_stem entry_image labels (x, y, w, h) σ
    = (inr (entry_idx + 1), σ')
    ∧ files_of (disk σ') !! "/content/results/mytest.jpg" = Some (Bgr out)
    ∧ ∀ i j, (Z.to_nat y ≤ i < Z.to_nat y + Z.to_nat h)%nat →
             (Z.to_nat x ≤ j < Z.to_nat x + Z.to_nat w)%nat →
             px out i j = px (colorized_labels labels) 0 (j - Z.to_nat x).
Proof.
  intros Himg Hlab Hx Hy Hw Hh HxW HyH HW HH.
  assert (Hr : box_rows entry_image (x, y, w, h) = (Z.to_nat y, Z.to_nat h)).
  { unfold box_rows, i32_add. rewrite wrap32_id by lia.
    rewrite (has_shape_nrows _ _ _ Himg), slice_indices_inside by lia.
    do 2 f_equal. lia. }
  assert (Hc : box_cols entry_image (x, y, w, h) = (Z.to_nat x, Z.to_nat w)).
  { unfold box_cols, i32_add. rewrite wrap32_id by lia.
    rewrite (has_shape_ncols _ _ _ Himg), slice_indices_inside by lia.
    do 2 f_equal. lia. }
  assert (Hacc : box_accepted entry_image labels (x, y, w, h) = true).
  { unfold box_accepted. rewrite Hr, Hc. simpl.
    rewrite (has_shape_nrows _ _ _ Hlab), (has_shape_ncols _ _ _ Hlab) by lia.
    unfold broadcastable.
    rewrite (bool_decide_eq_true_2 (1%nat = 1%nat)) by done.
    rewrite (bool_decide_eq_true_2 (Z.to_nat w = Z.to_nat w)) by done.
    by rewrite orb_true_r. }
  destruct (wp_elim
    (execute_on_outputs entry_idx file_stem entry_image labels (x, y, w, h)) σ
    (λ r σ', r = inr (entry_idx + 1)
             ∧ disk σ' = (disk σ
                 ++ (if bool_decide ("/content/results" ∈ dirs σ) then []
                     else [Mkdir "/content/results"]))
                 ++ label_dumps labels
                 ++ image_events file_stem entry_image labels (x, y, w, h)))
    as (r & σ' & Hrun & -> & Hdisk).
  { apply wp_execute_on_outputs. rewrite Hacc. intros σ' _ ->.
    by rewrite <- !app_assoc. }
  exists σ', (composited entry_image labels (x, y, w, h)).
  split; [done|]. split.
  { rewrite Hdisk. apply files_after_image. }
  intros i j Hi Hj. unfold composited. rewrite Hr, Hc. simpl.
  assert (Hcs : has_shape (colorized_labels labels) 1 (Z.to_nat w))
    by (unfold colorized_labels, merged_labels; by apply map2_shape, map2_shape).
  rewrite px_paste, px_np_full
    by (rewrite ?(has_shape_nrows _ _ _ Himg), ?(has_shape_ncols _ _ _ Himg); lia).
  simpl. rewrite (bool_decide_eq_true_2 (_ ≤ i < _)%nat) by done.
  rewrite (bool_decide_eq_true_2 (_ ≤ j < _)%nat) by done. simpl.
  rewrite (has_shape_nrows _ _ _ Hcs), (has_shape_ncols _ _ _ Hcs) by lia.
  rewrite (bool_decide_eq_true_2 (1%nat = 1%nat)) by done.
  rewrite (px_at2 white _ 1 (Z.to_nat w)) by (done || lia).
  destruct (bool_decide (Z.to_nat w = 1%nat)) eqn:Hw1; [|reflexivity].
  apply bool_decide_eq_true_1 in Hw1.
  replace (j - Z.to_nat x)%nat with 0%nat by lia. reflexivity.
Qed.

End BoxEdges.

Lemma X16_box_left_of_the_image_wraps_around_witness :
  let σ := World ∅ [] [] in
  let entry_image := np_full 2 3 (10, 20, 30) in
  ∃ σ',
    execute_on_outputs (cv := small_cv) 0 "a" entry_image [[9]] (-2, 0, 1, 1) σ
    = (inr (0 + 1), σ')
    ∧ files_of (disk σ') !! "/content/results/mytest.jpg"
      = Some (Bgr (paste (Z.to_nat 0) (Z.to_nat 1)
                     (Z.to_nat (Z.of_nat 3 + -2)) (Z.to_nat 1)
                     (colorized_labels (cv := small_cv) [[9]])
                     (np_full 2 3 white))).
Proof.
  apply (X16_box_left_of_the_image_wraps_around (cv := small_cv) (World ∅ [] [])
           0 "a" (np_full 2 3 (10, 20, 30)) [[9]] (-2) 0 1 1 2 3).
  - apply np_full_shape.
  - split; [reflexivity|]. by repeat constructor.
  - lia.
  - lia.
  - lia.
  - lia.
  - lia.
  - lia.
  - lia.
  - lia.
Defined.

Lemma X17_one_row_of_labels_is_repeated_witness :
  let σ := World ∅ [] [] in
  let entry_image := np_full 2 2 (10, 20, 30) in
  let labels := [[1; 9]] in
  ∃ σ' out,
    execute_on_outputs (cv := small_cv) 0 "a" entry_image labels (0, 0, 2, 2) σ
    = (inr (0 + 1), σ')
    ∧ files_of (disk σ') !! "/content/results/mytest.jpg" = Some (Bgr out)
    ∧ ∀ i j, (Z.to_nat 0 ≤ i < Z.to_nat 0 + Z.to_nat 2)%nat →
             (Z.to_nat 0 ≤ j < Z.to_nat 0 + Z.to_nat 2)%nat →
             px out i j
             = px (colorized_labels (cv := small_cv) labels) 0 (j - Z.to_nat 0).
Proof.
  apply (X17_one_row_of_labels_is_repeated (cv := small_cv) (World ∅ [] [])
           0 "a" (np_full 2 2 (10, 20, 30)) [[1; 9]] 0 0 2 2 2 2).
  - apply np_full_shape.
  - split; [reflexivity|]. by repeat constructor.
  - lia.
  - lia.
  - lia.
  - lia.
  - lia.
  - lia.
  - lia.
  - lia.
Defined.
